(** * mcp-notes: the note store of [server.py]

    A shallow embedding of [NotesStorage] (the storage and validation layer
    of the MCP note-taking server) and the properties its specification
    states about it.

    Conventions of the embedding.
    - A Python [str] is a [string]: the sequence of its UTF-8 bytes.  Python
      compares strings by code point, and UTF-8 preserves that order, so
      [String.ltb] is Python's [<] on [str]; a substring test on the bytes of
      two well-formed strings is the substring test on their code points.
    - A dict with a fixed set of keys (a note, its tags, the schema, the
      document) is a record; the dict built by [list_tags], whose keys are
      data, is a [gmap].
    - The store is mutated in place and exceptions do not roll anything back,
      so a method is a function from the store to an outcome (returned value
      or raised exception) together with the store it leaves behind.
    - What a call reads from the outside world (the clock, the UUID
      generator, whether the file write goes through) is gathered in [Env]. *)

From Stdlib Require Import String Ascii List Bool Arith Lia DecimalString.
From Stdlib Require Import Decimal DecimalNat.
From stdpp Require Import base option list gmap strings.
Import ListNotations.

Local Open Scope string_scope.
Local Open Scope list_scope.

(* ===================================================================== *)
(** * Data model *)
(* ===================================================================== *)

(** [data["tag_schema"]]: the four dimensions, each an ordered list. *)
Record TagSchema := mkSchema {
  s_category : list string;
  s_type : list string;
  s_priority : list string;
  s_topics : list string
}.

(** [note["tags"]]. *)
Record Tags := mkTags {
  t_category : string;
  t_type : string;
  t_priority : string;
  t_topics : list string
}.

(** A note, with the keys of the dict built in [create_note]. *)
Record Note := mkNote {
  n_id : string;
  n_title : string;
  n_content : string;
  n_tags : Tags;
  n_created : string;
  n_updated : string
}.

(** [self.data]. *)
Record Document := mkDocument {
  tag_schema : TagSchema;
  notes : list Note
}.

(** The store: the in-memory document, the document held by the backing
    file ([None] while the file does not exist) and the number of times
    [_save] has been entered. *)
Record Store := mkStore {
  data : Document;
  file : option Document;
  save_calls : nat
}.

(** The exceptions the methods raise.  Every failure the storage layer
    signals itself is a [ValueError] with a message; [OSError] stands for a
    failed write inside [_save]; [KeyError] for a missing dict key. *)
Inductive exn :=
| ValueError (msg : string)
| KeyError (key : string)
| OSError.

Inductive outcome (A : Type) :=
| Return (a : A)
| Raise (e : exn).
Arguments Return {A} a.
Arguments Raise {A} e.

(** [datetime.utcnow()]: a naive date and time. *)
Record datetime := mkDatetime {
  year : nat; month : nat; day : nat;
  hour : nat; minute : nat; second : nat; microsecond : nat
}.

(** What one call reads from its environment. *)
Record Env := mkEnv {
  utcnow : datetime;   (* datetime.utcnow() *)
  uuid4 : string;      (* str(uuid.uuid4()) *)
  disk_ok : bool       (* does the write of _save succeed? *)
}.

(* ===================================================================== *)
(** * The store monad *)
(* ===================================================================== *)

Definition M (A : Type) : Type := Store -> outcome A * Store.

Definition ret {A} (a : A) : M A := fun s => (Return a, s).

Definition bind {A B} (c : M A) (k : A -> M B) : M B :=
  fun s => match c s with
           | (Return a, s') => k a s'
           | (Raise e, s') => (Raise e, s')
           end.

Definition raise {A} (e : exn) : M A := fun s => (Raise e, s).

Definition get_data : M Document := fun s => (Return (data s), s).

Definition set_data (d : Document) : M unit :=
  fun s => (Return tt, {| data := d; file := file s; save_calls := save_calls s |}).

Declare Scope store_scope.
Delimit Scope store_scope with store.
Notation "x <- c ;; k" := (bind c (fun x => k))
  (at level 100, c at next level, right associativity) : store_scope.
Notation "c ;;; k" := (bind c (fun _ => k))
  (at level 100, right associativity) : store_scope.
Local Open Scope store_scope.

(** Running a method: what it returns or raises, and the store afterwards. *)
Definition result_of {A} (c : M A) (s : Store) : outcome A := fst (c s).
Definition store_after {A} (c : M A) (s : Store) : Store := snd (c s).

(* ===================================================================== *)
(** * Python helpers *)
(* ===================================================================== *)

(** [x in l] for a list of strings. *)
Definition mem (x : string) (l : list string) : bool :=
  existsb (String.eqb x) l.

(** [sep.join(l)]. *)
Definition join (sep : string) (l : list string) : string := String.concat sep l.

(** [a > b] on strings. *)
Definition gtb (a b : string) : bool := String.ltb b a.

(** [needle in hay] for strings. *)
Fixpoint contains (needle hay : string) : bool :=
  String.prefix needle hay ||
  match hay with
  | EmptyString => false
  | String _ hay' => contains needle hay'
  end.

(** ["%0<width>d" % n]. *)
Definition zero_pad (width n : nat) : string :=
  let digits := NilZero.string_of_uint (Nat.to_uint n) in
  string_of_list_ascii (repeat "0"%char (width - String.length digits)) ++ digits.

(** [datetime.isoformat()] of a naive datetime: the fraction is printed
    only when the microseconds are not zero. *)
Definition isoformat (d : datetime) : string :=
  zero_pad 4 (year d) ++ "-" ++ zero_pad 2 (month d) ++ "-" ++ zero_pad 2 (day d)
  ++ "T" ++ zero_pad 2 (hour d) ++ ":" ++ zero_pad 2 (minute d) ++ ":"
  ++ zero_pad 2 (second d)
  ++ (if Nat.eqb (microsecond d) 0 then "" else "." ++ zero_pad 6 (microsecond d)).

(** [datetime.utcnow().isoformat() + 'Z']. *)
Definition timestamp (env : Env) : string := isoformat (utcnow env) ++ "Z".





(** [topics or []]: an absent or empty list gives a fresh empty list. *)
Definition or_empty (topics : option (list string)) : list string :=
  match topics with
  | Some (t :: ts) => t :: ts
  | _ => []
  end.

(* ===================================================================== *)
(** * NotesStorage *)
(* ===================================================================== *)

(** [_load] when the backing file does not exist. *)
Definition seed_schema : TagSchema :=
  {| s_category := ["work"; "personal"; "learning"];
     s_type := ["project"; "idea"; "reference"; "todo"; "note"];
     s_priority := ["active"; "soon"; "someday"; "eventually"; "maybe"; "not-actionable"];
     s_topics := ["mcp"; "ai"; "coding"; "design"] |}.

Definition seed_document : Document :=
  {| tag_schema := seed_schema; notes := [] |}.

(** The store right after [NotesStorage(file_path)] with no file on disk. *)
Definition initial_store : Store :=
  {| data := seed_document; file := None; save_calls := 0 |}.

(** [_save]: the whole document replaces the file, or the write fails and
    the file keeps its previous content.  The in-memory document is not
    touched either way. *)
Definition _save (env : Env) : M unit :=
  fun s =>
    if disk_ok env
    then (Return tt, {| data := data s; file := Some (data s);
                        save_calls := S (save_calls s) |})
    else (Raise OSError, {| data := data s; file := file s;
                            save_calls := S (save_calls s) |}).

(** [get_schema]. *)
Definition get_schema : M TagSchema :=
  d <- get_data ;; ret (tag_schema d).

(** [schema[dimension]], read and written by key. *)
Definition schema_get (schema : TagSchema) (dimension : string) : option (list string) :=
  if dimension =? "category" then Some (s_category schema)
  else if dimension =? "type" then Some (s_type schema)
  else if dimension =? "priority" then Some (s_priority schema)
  else if dimension =? "topics" then Some (s_topics schema)
  else None.

Definition schema_set (schema : TagSchema) (dimension : string) (l : list string) : TagSchema :=
  if dimension =? "category" then
    {| s_category := l; s_type := s_type schema;
       s_priority := s_priority schema; s_topics := s_topics schema |}
  else if dimension =? "type" then
    {| s_category := s_category schema; s_type := l;
       s_priority := s_priority schema; s_topics := s_topics schema |}
  else if dimension =? "priority" then
    {| s_category := s_category schema; s_type := s_type schema;
       s_priority := l; s_topics := s_topics schema |}
  else if dimension =? "topics" then
    {| s_category := s_category schema; s_type := s_type schema;
       s_priority := s_priority schema; s_topics := l |}
  else schema.

Definition valid_dimensions : list string := ["category"; "type"; "priority"; "topics"].

(** The loop of [add_tags_to_schema] on one dimension's list:
    [for tag in tags: if tag not in l: l.append(tag)]. *)
Fixpoint append_new (l : list string) (tags : list string) : list string :=
  match tags with
  | [] => l
  | tag :: rest =>
      if negb (mem tag l) then append_new (l ++ [tag]) rest
      else append_new l rest
  end.

(** [add_tags_to_schema]. *)
Definition add_tags_to_schema (env : Env) (dimension : string) (tags : list string)
  : M TagSchema :=
  if negb (mem dimension valid_dimensions) then
    raise (ValueError ("Invalid dimension '" ++ dimension ++ "'. Must be one of: "
                       ++ join ", " valid_dimensions))
  else
    d <- get_data ;;
    let schema := tag_schema d in
    match schema_get schema dimension with
    | None => raise (KeyError dimension)
    | Some l =>
        let schema' := schema_set schema dimension (append_new l tags) in
        set_data {| tag_schema := schema'; notes := notes d |} ;;;
        _save env ;;;
        ret schema'
    end.

Definition invalid_message (field value : string) (valid : list string) : string :=
  "Invalid " ++ field ++ " '" ++ value ++ "'. Must be one of: " ++ join ", " valid.

(** The loop over [topics] in [validate_tags]; [Some] is the early return. *)
Fixpoint validate_topics (schema : TagSchema) (topics : list string)
  : option (bool * string) :=
  match topics with
  | [] => None
  | topic :: rest =>
      if negb (mem topic (s_topics schema))
      then Some (false, invalid_message "topic" topic (s_topics schema))
      else validate_topics schema rest
  end.

(** One guarded return of [validate_tags]:
    [if value is not None and value not in valid: return False, message];
    [Some] is the early return, [None] falls through to the next statement. *)
Definition validate_one (field : string) (value : option string) (valid : list string)
  : option (bool * string) :=
  match value with
  | Some v =>
      if negb (mem v valid) then Some (false, invalid_message field v valid) else None
  | None => None
  end.

(** A statement that may return early, followed by the rest of the body. *)
Definition or_continue {A} (early : option A) (rest : M A) : M A :=
  match early with
  | Some r => ret r
  | None => rest
  end.

(** [validate_tags]. *)
Definition validate_tags (category type_tag priority : option string)
    (topics : option (list string)) : M (bool * string) :=
  d <- get_data ;;
  let schema := tag_schema d in
  or_continue (validate_one "category" category (s_category schema))
  (or_continue (validate_one "type" type_tag (s_type schema))
  (or_continue (validate_one "priority" priority (s_priority schema))
  (or_continue (match topics with
                | Some ts => validate_topics schema ts
                | None => None
                end)
  (ret (true, ""))))).

(** [create_note]. *)
Definition create_note (env : Env) (title content category type_tag priority : string)
    (topics : option (list string)) : M Note :=
  r <- validate_tags (Some category) (Some type_tag) (Some priority) topics ;;
  let '(is_valid, error) := r in
  if negb is_valid then raise (ValueError error)
  else
    let now := timestamp env in
    let note :=
      {| n_id := uuid4 env;
         n_title := title;
         n_content := content;
         n_tags := {| t_category := category; t_type := type_tag;
                      t_priority := priority; t_topics := or_empty topics |};
         n_created := now;
         n_updated := now |} in
    d <- get_data ;;
    set_data {| tag_schema := tag_schema d; notes := notes d ++ [note] |} ;;;
    _save env ;;;
    ret note.

Definition not_found_message (note_id : string) : string :=
  "Note with ID '" ++ note_id ++ "' not found".

(** The scan [for i, n in enumerate(notes): if n["id"] == note_id: ...]:
    position and value of the first note with that id, counting from [i]. *)
Fixpoint find_by_id (note_id : string) (l : list Note) (i : nat) : option (nat * Note) :=
  match l with
  | [] => None
  | n :: rest =>
      if n_id n =? note_id then Some (i, n)
      else find_by_id note_id rest (S i)
  end.

(** [read_note]. *)
Definition read_note (note_id : string) : M Note :=
  d <- get_data ;;
  match find_by_id note_id (notes d) 0 with
  | Some (_, note) => ret note
  | None => raise (ValueError (not_found_message note_id))
  end.

(** The field assignments of [update_note], in the order of the source. *)
Definition set_title (v : string) (n : Note) : Note :=
  {| n_id := n_id n; n_title := v; n_content := n_content n; n_tags := n_tags n;
     n_created := n_created n; n_updated := n_updated n |}.
Definition set_content (v : string) (n : Note) : Note :=
  {| n_id := n_id n; n_title := n_title n; n_content := v; n_tags := n_tags n;
     n_created := n_created n; n_updated := n_updated n |}.
Definition set_tags (t : Tags) (n : Note) : Note :=
  {| n_id := n_id n; n_title := n_title n; n_content := n_content n; n_tags := t;
     n_created := n_created n; n_updated := n_updated n |}.
Definition set_category (v : string) (n : Note) : Note :=
  set_tags {| t_category := v; t_type := t_type (n_tags n);
              t_priority := t_priority (n_tags n); t_topics := t_topics (n_tags n) |} n.
Definition set_type (v : string) (n : Note) : Note :=
  set_tags {| t_category := t_category (n_tags n); t_type := v;
              t_priority := t_priority (n_tags n); t_topics := t_topics (n_tags n) |} n.
Definition set_priority (v : string) (n : Note) : Note :=
  set_tags {| t_category := t_category (n_tags n); t_type := t_type (n_tags n);
              t_priority := v; t_topics := t_topics (n_tags n) |} n.
Definition set_topics (v : list string) (n : Note) : Note :=
  set_tags {| t_category := t_category (n_tags n); t_type := t_type (n_tags n);
              t_priority := t_priority (n_tags n); t_topics := v |} n.
Definition set_updated (v : string) (n : Note) : Note :=
  {| n_id := n_id n; n_title := n_title n; n_content := n_content n; n_tags := n_tags n;
     n_created := n_created n; n_updated := v |}.

(** [if v is not None: note[...] = v]. *)
Definition assign_if_provided {A} (o : option A) (set : A -> Note -> Note) (n : Note) : Note :=
  match o with
  | Some v => set v n
  | None => n
  end.

(** [update_note].  The note found by the scan is the object stored at that
    position of the list, so mutating it is a write at that position. *)
Definition update_note (env : Env) (note_id : string)
    (title content category type_tag priority : option string)
    (topics : option (list string)) : M Note :=
  d <- get_data ;;
  match find_by_id note_id (notes d) 0 with
  | None => raise (ValueError (not_found_message note_id))
  | Some (i, note) =>
      r <- validate_tags category type_tag priority topics ;;
      let '(is_valid, error) := r in
      if negb is_valid then raise (ValueError error)
      else
        let note := assign_if_provided title set_title note in
        let note := assign_if_provided content set_content note in
        let note := assign_if_provided category set_category note in
        let note := assign_if_provided type_tag set_type note in
        let note := assign_if_provided priority set_priority note in
        let note := assign_if_provided topics set_topics note in
        let note := set_updated (timestamp env) note in
        set_data {| tag_schema := tag_schema d; notes := <[i := note]> (notes d) |} ;;;
        _save env ;;;
        ret note
  end.

(** [delete_note]. *)
Definition delete_note (env : Env) (note_id : string) : M bool :=
  d <- get_data ;;
  match find_by_id note_id (notes d) 0 with
  | Some (i, _) =>
      set_data {| tag_schema := tag_schema d; notes := delete i (notes d) |} ;;;
      _save env ;;;
      ret true
  | None => raise (ValueError (not_found_message note_id))
  end.

(** The optional arguments of [find_notes]. *)
Record Query := mkQuery {
  q_category : option string;
  q_type : option string;
  q_priority : option string;
  q_topics : option (list string);
  q_title_contains : option string;
  q_created_after : option string;
  q_created_before : option string;
  q_updated_after : option string;
  q_updated_before : option string
}.

(** [find_notes()] with every argument left at its default. *)
Definition no_filters : Query :=
  mkQuery None None None None None None None None None.

(** [a is not None and test(a)]. *)
Definition provided_and {A} (o : option A) (test : A -> bool) : bool :=
  match o with
  | Some a => test a
  | None => false
  end.

Section Search.

(** [str.lower]: Unicode case mapping, left abstract. *)
Variable lower : string -> string.

(** The body of the loop of [find_notes] up to [results.append]: [true]
    when one of the [continue] statements is reached. *)
Definition skipped (q : Query) (note : Note) : bool :=
  if provided_and (q_category q) (fun c => negb (t_category (n_tags note) =? c)) then true
  else if provided_and (q_type q) (fun t => negb (t_type (n_tags note) =? t)) then true
  else if provided_and (q_priority q) (fun p => negb (t_priority (n_tags note) =? p)) then true
  else if provided_and (q_topics q)
            (fun ts => negb (existsb (fun topic => mem topic (t_topics (n_tags note))) ts))
       then true
  else if provided_and (q_title_contains q)
            (fun t => negb (contains (lower t) (lower (n_title note))))
       then true
  else if provided_and (q_created_after q) (fun b => n_created note <? b) then true
  else if provided_and (q_created_before q) (fun b => gtb (n_created note) b) then true
  else if provided_and (q_updated_after q) (fun b => n_updated note <? b) then true
  else if provided_and (q_updated_before q) (fun b => gtb (n_updated note) b) then true
  else false.

(** [for note in notes: ...; results.append(note)], from the accumulated
    [results]. *)
Fixpoint find_loop (q : Query) (l : list Note) (results : list Note) : list Note :=
  match l with
  | [] => results
  | note :: rest =>
      if skipped q note then find_loop q rest results
      else find_loop q rest (results ++ [note])
  end.

(** [find_notes]. *)
Definition find_notes (q : Query) : M (list Note) :=
  d <- get_data ;;
  ret (find_loop q (notes d) []).

End Search.

(** The dict returned by [list_tags]. *)
Record Counts := mkCounts {
  c_category : gmap string nat;
  c_type : gmap string nat;
  c_priority : gmap string nat;
  c_topics : gmap string nat
}.

(** [m[k] = m.get(k, 0) + 1]. *)
Definition bump (k : string) (m : gmap string nat) : gmap string nat :=
  <[k := default 0 (m !! k) + 1]> m.

(** [for topic in topics: counts["topics"][topic] = ... + 1]. *)
Fixpoint bump_all (topics : list string) (m : gmap string nat) : gmap string nat :=
  match topics with
  | [] => m
  | topic :: rest => bump_all rest (bump topic m)
  end.

(** The body of the loop of [list_tags] for one note. *)
Definition count_note (counts : Counts) (note : Note) : Counts :=
  {| c_category := bump (t_category (n_tags note)) (c_category counts);
     c_type := bump (t_type (n_tags note)) (c_type counts);
     c_priority := bump (t_priority (n_tags note)) (c_priority counts);
     c_topics := bump_all (t_topics (n_tags note)) (c_topics counts) |}.

Definition empty_counts : Counts :=
  {| c_category := ∅; c_type := ∅; c_priority := ∅; c_topics := ∅ |}.

(** [list_tags]. *)
Definition list_tags : M Counts :=
  d <- get_data ;;
  ret (fold_left count_note (notes d) empty_counts).

(* ===================================================================== *)
(** * Calls and reachable stores *)
(* ===================================================================== *)

(** One call of a mutating method, with what it reads from its environment. *)
Inductive Call :=
| CreateNote (env : Env) (title content category type_tag priority : string)
    (topics : option (list string))
| UpdateNote (env : Env) (note_id : string)
    (title content category type_tag priority : option string)
    (topics : option (list string))
| DeleteNote (env : Env) (note_id : string)
| AddTagsToSchema (env : Env) (dimension : string) (tags : list string).

(** The store a call leaves behind, whether it returns or raises. *)
Definition run (c : Call) (s : Store) : Store :=
  match c with
  | CreateNote env title content category type_tag priority topics =>
      store_after (create_note env title content category type_tag priority topics) s
  | UpdateNote env note_id title content category type_tag priority topics =>
      store_after (update_note env note_id title content category type_tag priority topics) s
  | DeleteNote env note_id => store_after (delete_note env note_id) s
  | AddTagsToSchema env dimension tags =>
      store_after (add_tags_to_schema env dimension tags) s
  end.

(** The stores reachable from the seed document. *)
Inductive reachable : Store -> Prop :=
| reachable_initial : reachable initial_store
| reachable_call (c : Call) (s : Store) : reachable s -> reachable (run c s).

(* ===================================================================== *)
(** * Properties stated by the specification *)
(* ===================================================================== *)

(** A note whose tags all belong to the schema. *)
Definition note_in_schema (schema : TagSchema) (n : Note) : Prop :=
  t_category (n_tags n) ∈ s_category schema ∧
  t_type (n_tags n) ∈ s_type schema ∧
  t_priority (n_tags n) ∈ s_priority schema ∧
  Forall (λ topic, topic ∈ s_topics schema) (t_topics (n_tags n)).

(** The schema-membership invariant of a document. *)
Definition schema_membership (d : Document) : Prop :=
  Forall (note_in_schema (tag_schema d)) (notes d).

(** Every provided tag belongs to its dimension. *)
Definition provided_valid (schema : TagSchema)
    (category type_tag priority : option string) (topics : option (list string)) : Prop :=
  (∀ c, category = Some c → c ∈ s_category schema) ∧
  (∀ t, type_tag = Some t → t ∈ s_type schema) ∧
  (∀ p, priority = Some p → p ∈ s_priority schema) ∧
  (∀ ts, topics = Some ts → Forall (λ topic, topic ∈ s_topics schema) ts).

(** [note_id] names the note at position [i]: it is the first with that id. *)
Definition first_with_id (note_id : string) (l : list Note) (i : nat) (n : Note) : Prop :=
  l !! i = Some n ∧ n_id n = note_id ∧
  ∀ j m, j < i → l !! j = Some m → n_id m ≠ note_id.

(** The checks of [validateTags] as the specification lists them: in the
    fixed order, the name used in the message, the values provided for the
    field and the dimension they must belong to. *)
Definition checks_in_order (schema : TagSchema)
    (category type_tag priority : option string) (topics : option (list string))
  : list (string * list string * list string) :=
  [ ("category", option_list category, s_category schema);
    ("type", option_list type_tag, s_type schema);
    ("priority", option_list priority, s_priority schema);
    ("topic", default [] topics, s_topics schema) ].

(** The first value, in that order, that is not in its dimension. *)
Fixpoint first_violation (checks : list (string * list string * list string))
  : option (string * string * list string) :=
  match checks with
  | [] => None
  | (field, values, valid) :: rest =>
      match List.find (λ v, bool_decide (v ∉ valid)) values with
      | Some v => Some (field, v, valid)
      | None => first_violation rest
      end
  end.

(** The verdict the specification gives for [validateTags]. *)
Definition validate_tags_spec (schema : TagSchema)
    (category type_tag priority : option string) (topics : option (list string))
  : bool * string :=
  match first_violation (checks_in_order schema category type_tag priority topics) with
  | None => (true, "")
  | Some (field, v, valid) =>
      (false, ("Invalid " ++ field ++ " '" ++ v ++ "'. Must be one of: " ++ join ", " valid)%string)
  end.

(** A filter that was not provided lets every note through. *)
Definition within {A} (o : option A) (test : A -> bool) : bool :=
  match o with
  | Some a => test a
  | None => true
  end.

(** The inclusive date bounds of [findNotes]. *)
Definition date_bounds_hold (q : Query) (n : Note) : bool :=
  within (q_created_after q) (λ b, b <=? n_created n) &&
  within (q_created_before q) (λ b, n_created n <=? b) &&
  within (q_updated_after q) (λ b, b <=? n_updated n) &&
  within (q_updated_before q) (λ b, n_updated n <=? b).

(** The query with its four date filters dropped. *)
Definition without_dates (q : Query) : Query :=
  mkQuery (q_category q) (q_type q) (q_priority q) (q_topics q) (q_title_contains q)
          None None None None.

(** A note matches a query when every provided filter holds (AND); the
    topics filter holds when the note has one of the requested topics (OR). *)
Definition matches (lower : string -> string) (q : Query) (n : Note) : bool :=
  within (q_category q) (λ c, bool_decide (t_category (n_tags n) = c)) &&
  within (q_type q) (λ t, bool_decide (t_type (n_tags n) = t)) &&
  within (q_priority q) (λ p, bool_decide (t_priority (n_tags n) = p)) &&
  within (q_topics q) (λ ts, bool_decide (Exists (λ topic, topic ∈ t_topics (n_tags n)) ts)) &&
  within (q_title_contains q) (λ t, contains (lower t) (lower (n_title n))) &&
  date_bounds_hold q n.

(** An entry of a usage histogram: a tag that is never used has no entry. *)
Definition histogram_entry (k : nat) : option nat :=
  match k with
  | 0 => None
  | S _ => Some k
  end.

(** How many notes carry [tag] in the field read by [field]. *)
Definition carriers (field : Note -> string) (tag : string) (l : list Note) : nat :=
  length (filter (λ n, field n = tag) l).

(** How many times [tag] occurs in the topic sequences of the notes. *)
Definition occurrences (tag : string) (l : list Note) : nat :=
  length (filter (λ topic, topic = tag) (concat (map (λ n, t_topics (n_tags n)) l))).

(** What [updateNote] leaves in the note: provided fields overwrite, omitted
    fields are kept, [updated] is the new timestamp. *)
Definition updated_note (now : string) (old : Note)
    (title content category type_tag priority : option string)
    (topics : option (list string)) : Note :=
  {| n_id := n_id old;
     n_title := default (n_title old) title;
     n_content := default (n_content old) content;
     n_tags := {| t_category := default (t_category (n_tags old)) category;
                  t_type := default (t_type (n_tags old)) type_tag;
                  t_priority := default (t_priority (n_tags old)) priority;
                  t_topics := default (t_topics (n_tags old)) topics |};
     n_created := n_created old;
     n_updated := now |}.

(* ===================================================================== *)
(** * Loading, restarting and the outcome of a call *)
(* ===================================================================== *)

(** [_load]: the seed document when the backing file does not exist, the
    document it holds otherwise. *)
Definition _load (backing : option Document) : Document :=
  match backing with
  | None => seed_document
  | Some d => d
  end.

(** [NotesStorage(file_path)] on the file a previous store has left. *)
Definition restart (s : Store) : Store :=
  {| data := _load (file s); file := file s; save_calls := 0 |}.

(** What a method call ends with, forgetting the returned value. *)
Definition ending {A} (o : outcome A) : outcome unit :=
  match o with
  | Return _ => Return tt
  | Raise e => Raise e
  end.

Definition call_result (c : Call) (s : Store) : outcome unit :=
  match c with
  | CreateNote env title content category type_tag priority topics =>
      ending (result_of (create_note env title content category type_tag priority topics) s)
  | UpdateNote env note_id title content category type_tag priority topics =>
      ending (result_of
                (update_note env note_id title content category type_tag priority topics) s)
  | DeleteNote env note_id => ending (result_of (delete_note env note_id) s)
  | AddTagsToSchema env dimension tags =>
      ending (result_of (add_tags_to_schema env dimension tags) s)
  end.

(** The same environment, or call, with the fate of the write decided. *)
Definition with_disk (ok : bool) (env : Env) : Env :=
  {| utcnow := utcnow env; uuid4 := uuid4 env; disk_ok := ok |}.

Definition call_with_disk (ok : bool) (c : Call) : Call :=
  match c with
  | CreateNote env title content category type_tag priority topics =>
      CreateNote (with_disk ok env) title content category type_tag priority topics
  | UpdateNote env note_id title content category type_tag priority topics =>
      UpdateNote (with_disk ok env) note_id title content category type_tag priority topics
  | DeleteNote env note_id => DeleteNote (with_disk ok env) note_id
  | AddTagsToSchema env dimension tags => AddTagsToSchema (with_disk ok env) dimension tags
  end.

Definition call_env (c : Call) : Env :=
  match c with
  | CreateNote env _ _ _ _ _ _ => env
  | UpdateNote env _ _ _ _ _ _ _ => env
  | DeleteNote env _ => env
  | AddTagsToSchema env _ _ => env
  end.




(** The ids of the stored notes, in document order. *)
Definition note_ids (d : Document) : list string := map n_id (notes d).

(** The id a call of [create_note] draws is carried by no stored note. *)
Definition call_id_fresh (c : Call) (s : Store) : Prop :=
  match c with
  | CreateNote env _ _ _ _ _ _ => uuid4 env ∉ note_ids (data s)
  | _ => True
  end.

(** No dimension of the schema lists a tag twice. *)
Definition schema_no_duplicates (schema : TagSchema) : Prop :=
  NoDup (s_category schema) ∧ NoDup (s_type schema) ∧
  NoDup (s_priority schema) ∧ NoDup (s_topics schema).

(** Each dimension of [a] is an initial segment of the one of [b]. *)
Definition schema_extends (a b : TagSchema) : Prop :=
  s_category a `prefix_of` s_category b ∧ s_type a `prefix_of` s_type b ∧
  s_priority a `prefix_of` s_priority b ∧ s_topics a `prefix_of` s_topics b.

(** The sum of the counters of one dimension. *)
Definition total (m : gmap string nat) : nat :=
  map_fold (λ _ v acc, v + acc) 0 m.

(* ===================================================================== *)
(** * Basic facts about the helpers *)
(* ===================================================================== *)

Ltac run_store :=
  unfold result_of, store_after, bind, ret, raise, get_data, set_data, or_continue in *;
  simpl in *.

Lemma mem_true (x : string) (l : list string) : mem x l = true ↔ x ∈ l.
Proof.
  unfold mem. rewrite existsb_exists, list_elem_of_In. split.
  - intros (y & Hin & Heq). apply String.eqb_eq in Heq. by subst.
  - intros Hin. exists x. split; [done | apply String.eqb_refl].
Qed.

Lemma mem_false (x : string) (l : list string) : mem x l = false ↔ x ∉ l.
Proof.
  rewrite <- mem_true. destruct (mem x l); split; congruence.
Qed.

Lemma not_mem_decide (x : string) (l : list string) :
  negb (mem x l) = bool_decide (x ∉ l).
Proof.
  destruct (mem x l) eqn:E; simpl; symmetry.
  - apply bool_decide_eq_false. apply mem_true in E. tauto.
  - apply bool_decide_eq_true. by apply mem_false.
Qed.

(** The string order is total: [not (a < b)] is [b <= a]. *)
Lemma not_ltb_leb (a b : string) : negb (a <? b) = (b <=? a).
Proof.
  unfold String.ltb, String.leb. rewrite (String.compare_antisym a b).
  by destruct (b ?= a)%string.
Qed.

Lemma not_gtb_leb (a b : string) : negb (gtb a b) = (a <=? b).
Proof. unfold gtb. apply not_ltb_leb. Qed.

(* ===================================================================== *)
(** * validate_tags *)
(* ===================================================================== *)

Lemma validate_one_find (field : string) (value : option string) (valid : list string) :
  validate_one field value valid =
  match List.find (λ v, bool_decide (v ∉ valid)) (option_list value) with
  | Some v => Some (false, invalid_message field v valid)
  | None => None
  end.
Proof.
  destruct value as [v|]; simpl; [|done].
  rewrite not_mem_decide. by destruct (bool_decide (v ∉ valid)).
Qed.

Lemma validate_topics_find (schema : TagSchema) (topics : list string) :
  validate_topics schema topics =
  match List.find (λ v, bool_decide (v ∉ s_topics schema)) topics with
  | Some v => Some (false, invalid_message "topic" v (s_topics schema))
  | None => None
  end.
Proof.
  induction topics as [|topic rest IH]; simpl; [done|].
  rewrite not_mem_decide. by destruct (bool_decide (topic ∉ s_topics schema)).
Qed.

(** [validate_tags] never raises, leaves the store alone and computes the
    verdict of the specification. *)
Lemma validate_tags_run (s : Store) (category type_tag priority : option string)
    (topics : option (list string)) :
  validate_tags category type_tag priority topics s =
  (Return (validate_tags_spec (tag_schema (data s)) category type_tag priority topics), s).
Proof.
  unfold validate_tags, validate_tags_spec, checks_in_order. run_store.
  rewrite !validate_one_find.
  destruct (List.find _ (option_list category)); [done|].
  destruct (List.find _ (option_list type_tag)); [done|].
  destruct (List.find _ (option_list priority)); [done|].
  destruct topics as [ts|]; simpl; [|done].
  rewrite validate_topics_find.
  by destruct (List.find _ ts).
Qed.

Lemma find_violation_none (valid values : list string) :
  List.find (λ v, bool_decide (v ∉ valid)) values = None ↔
  Forall (λ v, v ∈ valid) values.
Proof.
  induction values as [|v rest IH]; simpl.
  - split; [constructor | done].
  - destruct (bool_decide (v ∉ valid)) eqn:E.
    + apply bool_decide_eq_true in E. split; [done|].
      intros H. apply Forall_cons in H as [H _]. contradiction.
    + apply bool_decide_eq_false in E. rewrite IH. split.
      * intros H. constructor; [|done]. by destruct (decide (v ∈ valid)).
      * intros H. by apply Forall_cons in H as [_ H].
Qed.

Lemma option_list_valid (valid : list string) (o : option string) :
  Forall (λ v, v ∈ valid) (option_list o) ↔ ∀ v, o = Some v → v ∈ valid.
Proof.
  destruct o as [v|]; simpl.
  - rewrite Forall_singleton. split; [by intros H ? [= <-] | eauto].
  - split; [done | constructor].
Qed.

(** The verdict is "valid" exactly when every provided tag is in its
    dimension. *)
Lemma validate_tags_spec_valid (schema : TagSchema)
    (category type_tag priority : option string) (topics : option (list string)) :
  fst (validate_tags_spec schema category type_tag priority topics) = true ↔
  provided_valid schema category type_tag priority topics.
Proof.
  unfold validate_tags_spec, checks_in_order, provided_valid, first_violation.
  rewrite <- !option_list_valid.
  assert (Htopics : Forall (λ v, v ∈ s_topics schema) (default [] topics) ↔
                    ∀ ts, topics = Some ts → Forall (λ v, v ∈ s_topics schema) ts).
  { destruct topics as [ts|]; simpl.
    - split; [by intros H ? [= <-] | eauto].
    - split; [done | constructor]. }
  rewrite <- Htopics, <- !find_violation_none.
  destruct (List.find _ (option_list category)); simpl; [intuition discriminate|].
  destruct (List.find _ (option_list type_tag)); simpl; [intuition discriminate|].
  destruct (List.find _ (option_list priority)); simpl; [intuition discriminate|].
  destruct (List.find _ (default [] topics)); simpl; intuition discriminate.
Qed.

Lemma validate_tags_spec_true (schema : TagSchema)
    (category type_tag priority : option string) (topics : option (list string)) :
  provided_valid schema category type_tag priority topics →
  validate_tags_spec schema category type_tag priority topics = (true, "").
Proof.
  intros H. apply validate_tags_spec_valid in H. revert H.
  unfold validate_tags_spec.
  by destruct (first_violation _) as [[[? ?] ?]|].
Qed.

Lemma find_violation_first (valid pre post : list string) (v : string) :
  Forall (λ x, x ∈ valid) pre → v ∉ valid →
  List.find (λ x, bool_decide (x ∉ valid)) (pre ++ v :: post) = Some v.
Proof.
  intros Hpre Hv. induction Hpre as [|x pre Hx _ IH]; simpl.
  - by rewrite bool_decide_eq_true_2.
  - rewrite bool_decide_eq_false_2; [done | tauto].
Qed.

Lemma find_violation_option (valid : list string) (o : option string) :
  (∀ v, o = Some v → v ∈ valid) →
  List.find (λ x, bool_decide (x ∉ valid)) (option_list o) = None.
Proof. intros H. by apply find_violation_none, option_list_valid. Qed.

(** C7 (validateTags semantics).  [validate_tags] never raises and leaves
    the store as it found it; its verdict is the one obtained by scanning
    category, type, priority and then the topics for the first value that is
    not in its dimension; omitted fields impose nothing, so the verdict is
    [(True, "")] exactly when every provided value is in its dimension; and
    the message of a failure names the first offending field and value and
    lists the whole dimension of that field. *)
Theorem validate_tags_semantics (s : Store) (category type_tag priority : option string)
    (topics : option (list string)) :
  store_after (validate_tags category type_tag priority topics) s = s ∧
  result_of (validate_tags category type_tag priority topics) s =
    Return (validate_tags_spec (tag_schema (data s)) category type_tag priority topics) ∧
  (result_of (validate_tags category type_tag priority topics) s = Return (true, "") ↔
   provided_valid (tag_schema (data s)) category type_tag priority topics) ∧
  result_of (validate_tags None None None None) s = Return (true, "") ∧
  (∀ c, category = Some c → c ∉ s_category (tag_schema (data s)) →
     result_of (validate_tags category type_tag priority topics) s =
     Return (false, invalid_message "category" c (s_category (tag_schema (data s))))) ∧
  (∀ t, (∀ c, category = Some c → c ∈ s_category (tag_schema (data s))) →
     type_tag = Some t → t ∉ s_type (tag_schema (data s)) →
     result_of (validate_tags category type_tag priority topics) s =
     Return (false, invalid_message "type" t (s_type (tag_schema (data s))))) ∧
  (∀ p, (∀ c, category = Some c → c ∈ s_category (tag_schema (data s))) →
     (∀ t, type_tag = Some t → t ∈ s_type (tag_schema (data s))) →
     priority = Some p → p ∉ s_priority (tag_schema (data s)) →
     result_of (validate_tags category type_tag priority topics) s =
     Return (false, invalid_message "priority" p (s_priority (tag_schema (data s))))) ∧
  (∀ pre topic post,
     (∀ c, category = Some c → c ∈ s_category (tag_schema (data s))) →
     (∀ t, type_tag = Some t → t ∈ s_type (tag_schema (data s))) →
     (∀ p, priority = Some p → p ∈ s_priority (tag_schema (data s))) →
     topics = Some (pre ++ topic :: post) →
     Forall (λ x, x ∈ s_topics (tag_schema (data s))) pre →
     topic ∉ s_topics (tag_schema (data s)) →
     result_of (validate_tags category type_tag priority topics) s =
     Return (false, invalid_message "topic" topic (s_topics (tag_schema (data s))))).
Proof.
  unfold result_of, store_after. rewrite !validate_tags_run. simpl.
  split; [done|]. split; [done|]. split.
  { rewrite <- validate_tags_spec_valid. split.
    - by intros [= ->].
    - intros H. f_equal. apply validate_tags_spec_true.
      by apply validate_tags_spec_valid. }
  split; [done|].
  unfold validate_tags_spec, checks_in_order, first_violation, invalid_message.
  repeat split.
  - intros c -> Hc. simpl. by rewrite bool_decide_eq_true_2.
  - intros t Hcat -> Ht. rewrite (find_violation_option _ _ Hcat).
    simpl. by rewrite bool_decide_eq_true_2.
  - intros p Hcat Htype -> Hp.
    rewrite (find_violation_option _ _ Hcat), (find_violation_option _ _ Htype).
    simpl. by rewrite bool_decide_eq_true_2.
  - intros pre topic post Hcat Htype Hpri -> Hpre Htopic.
    rewrite (find_violation_option _ _ Hcat), (find_violation_option _ _ Htype),
      (find_violation_option _ _ Hpri).
    simpl. by rewrite (find_violation_first _ _ _ _ Hpre Htopic).
Qed.

(** An instance: on the seed schema, an unknown type and an unknown topic
    are both provided; the type is reported, with the types of the schema. *)
Lemma validate_tags_semantics_witness :
  result_of (validate_tags (Some "work") (Some "essay") None (Some ["mcp"; "rust"]))
            initial_store =
  Return (false, "Invalid type 'essay'. Must be one of: project, idea, reference, todo, note").
Proof.
  apply ((proj1 (proj2 (proj2 (proj2 (proj2 (proj2
    (validate_tags_semantics initial_store (Some "work") (Some "essay") None
       (Some ["mcp"; "rust"])))))))) "essay").
  - intros c [= <-]. apply mem_true. reflexivity.
  - reflexivity.
  - apply mem_false. reflexivity.
Defined.

(* ===================================================================== *)
(** * Looking a note up by id *)
(* ===================================================================== *)

Lemma find_by_id_none (note_id : string) (l : list Note) (k : nat) :
  find_by_id note_id l k = None ↔ ∀ n, n ∈ l → n_id n ≠ note_id.
Proof.
  revert k. induction l as [|m rest IH]; intros k; simpl.
  - split; [|done]. intros _ n Hn. by apply elem_of_nil in Hn.
  - destruct (String.eqb_spec (n_id m) note_id) as [Heq|Hne].
    + split; [done|]. intros H. exfalso. apply (H m); [left | done].
    + rewrite IH. split.
      * intros H n Hn. apply elem_of_cons in Hn as [->|Hn]; [done | by apply H].
      * intros H n Hn. apply H. by right.
Qed.

Lemma find_by_id_some (note_id : string) (l : list Note) (k i : nat) (n : Note) :
  find_by_id note_id l k = Some (i, n) ↔
  ∃ j, i = k + j ∧ first_with_id note_id l j n.
Proof.
  unfold first_with_id. revert k. induction l as [|m rest IH]; intros k; simpl.
  - split; [done|]. by intros (j & _ & H & _).
  - destruct (String.eqb_spec (n_id m) note_id) as [Heq|Hne].
    + split.
      * intros [= <- <-]. exists 0. split; [lia|]. split; [done|]. split; [done|]. lia.
      * intros (j & -> & Hj & Hid & Hfirst). destruct j as [|j].
        -- simpl in Hj. injection Hj as <-. do 2 f_equal. lia.
        -- exfalso. apply (Hfirst 0 m); [lia | done | done].
    + rewrite IH. split.
      * intros (j & -> & Hj & Hid & Hfirst). exists (S j). split; [lia|].
        split; [done|]. split; [done|].
        intros [|j'] m' Hlt Hm'; simpl in Hm'.
        -- by injection Hm' as <-.
        -- apply (Hfirst j' m'); [lia | done].
      * intros (j & -> & Hj & Hid & Hfirst). destruct j as [|j].
        -- simpl in Hj. injection Hj as <-. contradiction.
        -- exists j. split; [lia|]. split; [done|]. split; [done|].
           intros j' m' Hlt Hm'. apply (Hfirst (S j') m'); [lia | done].
Qed.

Lemma find_by_id_first (note_id : string) (l : list Note) (i : nat) (n : Note) :
  find_by_id note_id l 0 = Some (i, n) ↔ first_with_id note_id l i n.
Proof.
  rewrite find_by_id_some. split.
  - by intros (j & -> & H).
  - intros H. by exists i.
Qed.

(* ===================================================================== *)
(** * What each mutating method does *)
(* ===================================================================== *)

Lemma create_note_invalid (env : Env) (title content category type_tag priority : string)
    (topics : option (list string)) (s : Store) (msg : string) :
  validate_tags_spec (tag_schema (data s)) (Some category) (Some type_tag) (Some priority)
    topics = (false, msg) →
  create_note env title content category type_tag priority topics s =
  (Raise (ValueError msg), s).
Proof.
  intros H. unfold create_note, bind at 1. rewrite validate_tags_run, H. done.
Qed.

Lemma create_note_valid (env : Env) (title content category type_tag priority : string)
    (topics : option (list string)) (s : Store) :
  validate_tags_spec (tag_schema (data s)) (Some category) (Some type_tag) (Some priority)
    topics = (true, "") →
  create_note env title content category type_tag priority topics s =
  let note := {| n_id := uuid4 env; n_title := title; n_content := content;
                 n_tags := {| t_category := category; t_type := type_tag;
                              t_priority := priority; t_topics := or_empty topics |};
                 n_created := timestamp env; n_updated := timestamp env |} in
  let d := {| tag_schema := tag_schema (data s); notes := notes (data s) ++ [note] |} in
  if disk_ok env
  then (Return note, {| data := d; file := Some d; save_calls := S (save_calls s) |})
  else (Raise OSError, {| data := d; file := file s; save_calls := S (save_calls s) |}).
Proof.
  intros H. unfold create_note, bind at 1. rewrite validate_tags_run, H.
  unfold _save. run_store. by destruct (disk_ok env).
Qed.

Lemma update_note_missing (env : Env) (note_id : string)
    (title content category type_tag priority : option string)
    (topics : option (list string)) (s : Store) :
  find_by_id note_id (notes (data s)) 0 = None →
  update_note env note_id title content category type_tag priority topics s =
  (Raise (ValueError (not_found_message note_id)), s).
Proof. intros H. unfold update_note. run_store. by rewrite H. Qed.

Lemma update_note_invalid (env : Env) (note_id : string)
    (title content category type_tag priority : option string)
    (topics : option (list string)) (s : Store) (i : nat) (note : Note) (msg : string) :
  find_by_id note_id (notes (data s)) 0 = Some (i, note) →
  validate_tags_spec (tag_schema (data s)) category type_tag priority topics = (false, msg) →
  update_note env note_id title content category type_tag priority topics s =
  (Raise (ValueError msg), s).
Proof.
  intros Hfind H. unfold update_note, bind at 1. unfold get_data. rewrite Hfind.
  unfold bind at 1. rewrite validate_tags_run, H. done.
Qed.

Lemma assign_all (now : string) (note : Note)
    (title content category type_tag priority : option string)
    (topics : option (list string)) :
  set_updated now
    (assign_if_provided topics set_topics
      (assign_if_provided priority set_priority
        (assign_if_provided type_tag set_type
          (assign_if_provided category set_category
            (assign_if_provided content set_content
              (assign_if_provided title set_title note)))))) =
  updated_note now note title content category type_tag priority topics.
Proof.
  by destruct title, content, category, type_tag, priority, topics, note as [? ? ? [] ? ?].
Qed.

Lemma update_note_valid (env : Env) (note_id : string)
    (title content category type_tag priority : option string)
    (topics : option (list string)) (s : Store) (i : nat) (note : Note) :
  find_by_id note_id (notes (data s)) 0 = Some (i, note) →
  validate_tags_spec (tag_schema (data s)) category type_tag priority topics = (true, "") →
  update_note env note_id title content category type_tag priority topics s =
  let note' := updated_note (timestamp env) note title content category type_tag
                 priority topics in
  let d := {| tag_schema := tag_schema (data s); notes := <[i := note']> (notes (data s)) |} in
  if disk_ok env
  then (Return note', {| data := d; file := Some d; save_calls := S (save_calls s) |})
  else (Raise OSError, {| data := d; file := file s; save_calls := S (save_calls s) |}).
Proof.
  intros Hfind H. unfold update_note, bind at 1. unfold get_data. rewrite Hfind.
  unfold bind at 1. rewrite validate_tags_run, H. cbv zeta. rewrite assign_all.
  unfold _save. run_store. by destruct (disk_ok env).
Qed.

Lemma delete_note_missing (env : Env) (note_id : string) (s : Store) :
  find_by_id note_id (notes (data s)) 0 = None →
  delete_note env note_id s = (Raise (ValueError (not_found_message note_id)), s).
Proof. intros H. unfold delete_note. run_store. by rewrite H. Qed.

Lemma delete_note_found (env : Env) (note_id : string) (s : Store) (i : nat) (note : Note) :
  find_by_id note_id (notes (data s)) 0 = Some (i, note) →
  delete_note env note_id s =
  let d := {| tag_schema := tag_schema (data s); notes := delete i (notes (data s)) |} in
  if disk_ok env
  then (Return true, {| data := d; file := Some d; save_calls := S (save_calls s) |})
  else (Raise OSError, {| data := d; file := file s; save_calls := S (save_calls s) |}).
Proof.
  intros H. unfold delete_note, _save. run_store. rewrite H. simpl.
  by destruct (disk_ok env).
Qed.

(** The verdict of a validation is either [(True, "")] or [(False, msg)]. *)
Lemma validate_tags_spec_cases (schema : TagSchema)
    (category type_tag priority : option string) (topics : option (list string)) :
  validate_tags_spec schema category type_tag priority topics = (true, "") ∨
  ∃ msg, validate_tags_spec schema category type_tag priority topics = (false, msg).
Proof.
  unfold validate_tags_spec.
  destruct (first_violation _) as [[[? ?] ?]|]; [right; eauto | by left].
Qed.

Lemma validate_tags_spec_invalid (schema : TagSchema)
    (category type_tag priority : option string) (topics : option (list string)) :
  ¬ provided_valid schema category type_tag priority topics →
  ∃ msg, validate_tags_spec schema category type_tag priority topics = (false, msg).
Proof.
  intros H. destruct (validate_tags_spec_cases schema category type_tag priority topics)
    as [Hok|Hbad]; [|done].
  exfalso. apply H, validate_tags_spec_valid. by rewrite Hok.
Qed.

(* ===================================================================== *)
(** * Errors of the mutating methods *)
(* ===================================================================== *)

(** C10 (error precedence in updateNote).  When no stored note carries the
    id, [update_note] raises the not-found error and changes nothing,
    whatever the other arguments are: the tags are not even looked at, so
    invalid tags do not turn the error into a validation error. *)
Theorem update_note_not_found_wins (env : Env) (note_id : string)
    (title content category type_tag priority : option string)
    (topics : option (list string)) (s : Store) :
  (∀ n, n ∈ notes (data s) → n_id n ≠ note_id) →
  update_note env note_id title content category type_tag priority topics s =
  (Raise (ValueError (not_found_message note_id)), s).
Proof.
  intros H. apply update_note_missing. by apply find_by_id_none.
Qed.

(** An instance: an unknown id together with a category and a topic that
    the seed schema does not have. *)
Lemma update_note_not_found_wins_witness :
  ¬ provided_valid seed_schema (Some "nowhere") None None (Some ["nothing"]) ∧
  update_note (mkEnv (mkDatetime 2024 5 17 9 30 0 0) "unused" true) "missing-id"
    None None (Some "nowhere") None None (Some ["nothing"]) initial_store =
  (Raise (ValueError "Note with ID 'missing-id' not found"), initial_store).
Proof.
  split.
  - intros (Hcat & _). specialize (Hcat "nowhere" eq_refl).
    apply mem_true in Hcat. discriminate.
  - apply (update_note_not_found_wins
             (mkEnv (mkDatetime 2024 5 17 9 30 0 0) "unused" true) "missing-id"
             None None (Some "nowhere") None None (Some ["nothing"]) initial_store).
    intros n Hn. simpl in Hn. by apply elem_of_nil in Hn.
Defined.

(** C2 (failure atomicity).  Whenever [create_note], [update_note] or
    [delete_note] raises a [ValueError], the store is exactly the one before
    the call: same document, same file, and [_save] was not entered.  The
    failures in question do occur: a provided tag outside the schema makes
    [create_note] and (for an existing id) [update_note] raise, an id that no
    note carries makes [update_note] and [delete_note] raise. *)
Theorem failure_atomicity (env : Env) (s : Store) :
  (∀ title content category type_tag priority topics msg,
     result_of (create_note env title content category type_tag priority topics) s
       = Raise (ValueError msg) →
     store_after (create_note env title content category type_tag priority topics) s = s) ∧
  (∀ note_id title content category type_tag priority topics msg,
     result_of (update_note env note_id title content category type_tag priority topics) s
       = Raise (ValueError msg) →
     store_after (update_note env note_id title content category type_tag priority topics) s
       = s) ∧
  (∀ note_id msg,
     result_of (delete_note env note_id) s = Raise (ValueError msg) →
     store_after (delete_note env note_id) s = s) ∧
  (∀ title content category type_tag priority topics,
     ¬ provided_valid (tag_schema (data s)) (Some category) (Some type_tag) (Some priority)
         topics →
     ∃ msg, create_note env title content category type_tag priority topics s
            = (Raise (ValueError msg), s)) ∧
  (∀ note_id title content category type_tag priority topics,
     (∃ n, n ∈ notes (data s) ∧ n_id n = note_id) →
     ¬ provided_valid (tag_schema (data s)) category type_tag priority topics →
     ∃ msg, update_note env note_id title content category type_tag priority topics s
            = (Raise (ValueError msg), s)) ∧
  (∀ note_id title content category type_tag priority topics,
     (∀ n, n ∈ notes (data s) → n_id n ≠ note_id) →
     update_note env note_id title content category type_tag priority topics s
     = (Raise (ValueError (not_found_message note_id)), s)) ∧
  (∀ note_id,
     (∀ n, n ∈ notes (data s) → n_id n ≠ note_id) →
     delete_note env note_id s = (Raise (ValueError (not_found_message note_id)), s)).
Proof.
  unfold result_of, store_after. repeat split.
  - intros title content category type_tag priority topics msg.
    destruct (validate_tags_spec_cases (tag_schema (data s)) (Some category)
                (Some type_tag) (Some priority) topics) as [Hok|[m Hbad]].
    + rewrite (create_note_valid _ _ _ _ _ _ _ _ Hok). cbv zeta.
      by destruct (disk_ok env).
    + by rewrite (create_note_invalid _ _ _ _ _ _ _ _ _ Hbad).
  - intros note_id title content category type_tag priority topics msg.
    destruct (find_by_id note_id (notes (data s)) 0) as [[i note]|] eqn:Hfind.
    + destruct (validate_tags_spec_cases (tag_schema (data s)) category type_tag
                  priority topics) as [Hok|[m Hbad]].
      * rewrite (update_note_valid _ _ _ _ _ _ _ _ _ _ _ Hfind Hok). cbv zeta.
        by destruct (disk_ok env).
      * by rewrite (update_note_invalid _ _ _ _ _ _ _ _ _ _ _ _ Hfind Hbad).
    + by rewrite (update_note_missing _ _ _ _ _ _ _ _ _ Hfind).
  - intros note_id msg.
    destruct (find_by_id note_id (notes (data s)) 0) as [[i note]|] eqn:Hfind.
    + rewrite (delete_note_found _ _ _ _ _ Hfind). cbv zeta. by destruct (disk_ok env).
    + by rewrite (delete_note_missing _ _ _ Hfind).
  - intros title content category type_tag priority topics Hbad.
    apply validate_tags_spec_invalid in Hbad as [msg Hbad]. exists msg.
    by apply create_note_invalid.
  - intros note_id title content category type_tag priority topics (n & Hn & Hid) Hbad.
    apply validate_tags_spec_invalid in Hbad as [msg Hbad]. exists msg.
    destruct (find_by_id note_id (notes (data s)) 0) as [[i note]|] eqn:Hfind.
    + by apply (update_note_invalid _ _ _ _ _ _ _ _ _ i note).
    + exfalso. by apply (proj1 (find_by_id_none _ _ _) Hfind n).
  - intros note_id title content category type_tag priority topics H.
    apply update_note_missing. by apply find_by_id_none.
  - intros note_id H. apply delete_note_missing. by apply find_by_id_none.
Qed.

(** An instance: deleting a note that does not exist from the seed store. *)
Lemma failure_atomicity_witness :
  result_of (delete_note (mkEnv (mkDatetime 2024 5 17 9 30 0 0) "unused" true) "missing-id")
    initial_store = Raise (ValueError "Note with ID 'missing-id' not found") ∧
  store_after (delete_note (mkEnv (mkDatetime 2024 5 17 9 30 0 0) "unused" true) "missing-id")
    initial_store = initial_store.
Proof.
  split; [reflexivity|].
  apply ((proj1 (proj2 (proj2
    (failure_atomicity (mkEnv (mkDatetime 2024 5 17 9 30 0 0) "unused" true) initial_store))))
    "missing-id" "Note with ID 'missing-id' not found").
  reflexivity.
Defined.

(* ===================================================================== *)
(** * add_tags_to_schema *)
(* ===================================================================== *)

Lemma append_new_present (l tags : list string) :
  Forall (λ tag, tag ∈ l) tags → append_new l tags = l.
Proof.
  induction 1 as [|tag rest Htag _ IH]; simpl; [done|].
  apply mem_true in Htag. by rewrite Htag.
Qed.

Lemma append_new_absent (l : list string) (tag : string) (rest : list string) :
  tag ∉ l → append_new l (tag :: rest) = append_new (l ++ [tag]) rest.
Proof. intros H. apply mem_false in H. simpl. by rewrite H. Qed.

Lemma append_new_elem (l tags : list string) (x : string) :
  x ∈ append_new l tags ↔ x ∈ l ∨ x ∈ tags.
Proof.
  revert l. induction tags as [|tag rest IH]; intros l; simpl.
  - rewrite elem_of_nil. tauto.
  - destruct (mem tag l) eqn:E; simpl; rewrite IH, elem_of_cons.
    + apply mem_true in E. split; [tauto|]. intros [?|[->|?]]; tauto.
    + rewrite elem_of_app, list_elem_of_singleton. tauto.
Qed.

Lemma append_new_prefix (l tags : list string) : l `prefix_of` append_new l tags.
Proof.
  revert l. induction tags as [|tag rest IH]; intros l; simpl; [done|].
  destruct (mem tag l); simpl; [apply IH|].
  etrans; [|apply IH]. by apply prefix_app_r.
Qed.

Lemma append_new_NoDup (l tags : list string) : NoDup l → NoDup (append_new l tags).
Proof.
  revert l. induction tags as [|tag rest IH]; intros l Hl; simpl; [done|].
  destruct (mem tag l) eqn:E; simpl; apply IH; [done|].
  apply mem_false in E. apply NoDup_app. split; [done|].
  split; [|apply NoDup_singleton].
  intros x Hx Hx'. apply list_elem_of_singleton in Hx'. by subst.
Qed.

Lemma schema_get_valid (schema : TagSchema) (dimension : string) :
  is_Some (schema_get schema dimension) ↔ mem dimension valid_dimensions = true.
Proof.
  unfold schema_get, mem, valid_dimensions. simpl.
  destruct (dimension =? "category"); [by split|].
  destruct (dimension =? "type"); [by split|].
  destruct (dimension =? "priority"); [by split|].
  destruct (dimension =? "topics"); [by split|].
  simpl. split; [by intros [? ?] | done].
Qed.

Lemma schema_get_set (schema : TagSchema) (dimension : string) (l l' : list string) :
  schema_get schema dimension = Some l →
  schema_get (schema_set schema dimension l') dimension = Some l'.
Proof.
  unfold schema_get, schema_set.
  destruct (dimension =? "category"); [done|].
  destruct (dimension =? "type"); [done|].
  destruct (dimension =? "priority"); [done|].
  by destruct (dimension =? "topics").
Qed.

Lemma schema_get_set_other (schema : TagSchema) (dimension other : string)
    (l' : list string) :
  other ≠ dimension →
  schema_get (schema_set schema dimension l') other = schema_get schema other.
Proof.
  intros Hne. unfold schema_get, schema_set.
  destruct (String.eqb_spec dimension "category") as [->|]; simpl.
  { by destruct (String.eqb_spec other "category"). }
  destruct (String.eqb_spec dimension "type") as [->|]; simpl.
  { by destruct (String.eqb_spec other "type"). }
  destruct (String.eqb_spec dimension "priority") as [->|]; simpl.
  { by destruct (String.eqb_spec other "priority"). }
  destruct (String.eqb_spec dimension "topics") as [->|]; simpl; [|done].
  by destruct (String.eqb_spec other "topics").
Qed.

Lemma schema_set_same (schema : TagSchema) (dimension : string) (l : list string) :
  schema_get schema dimension = Some l → schema_set schema dimension l = schema.
Proof.
  unfold schema_get, schema_set. destruct schema as [c t p ts]. simpl.
  destruct (dimension =? "category"); [by intros [= ->]|].
  destruct (dimension =? "type"); [by intros [= ->]|].
  destruct (dimension =? "priority"); [by intros [= ->]|].
  destruct (dimension =? "topics"); [by intros [= ->]|].
  done.
Qed.

Lemma add_tags_invalid_dimension (env : Env) (dimension : string) (tags : list string)
    (s : Store) :
  mem dimension valid_dimensions = false →
  add_tags_to_schema env dimension tags s =
  (Raise (ValueError ("Invalid dimension '" ++ dimension ++
                      "'. Must be one of: category, type, priority, topics")), s).
Proof. intros H. unfold add_tags_to_schema. by rewrite H. Qed.

Lemma add_tags_valid_dimension (env : Env) (dimension : string) (tags : list string)
    (s : Store) (l : list string) :
  schema_get (tag_schema (data s)) dimension = Some l →
  add_tags_to_schema env dimension tags s =
  let schema' := schema_set (tag_schema (data s)) dimension (append_new l tags) in
  let d := {| tag_schema := schema'; notes := notes (data s) |} in
  if disk_ok env
  then (Return schema', {| data := d; file := Some d; save_calls := S (save_calls s) |})
  else (Raise OSError, {| data := d; file := file s; save_calls := S (save_calls s) |}).
Proof.
  intros H. unfold add_tags_to_schema.
  rewrite (proj1 (schema_get_valid _ _) (mk_is_Some _ _ H)). simpl.
  unfold _save. run_store. rewrite H. run_store. by destruct (disk_ok env).
Qed.

(** C8 (addTagsToSchema is idempotent per tag).  On a valid dimension, whose
    sequence is [l], and with the write going through: adding tags that are
    all present returns the schema and leaves the whole document as it was;
    adding one absent tag returns the updated schema, which is the stored
    one, where the dimension is [l] with the tag appended at the end, the
    other dimensions and the notes being untouched; and in a longer call a
    present tag is skipped while an absent one is appended before the rest
    is processed. *)
Theorem add_tags_to_schema_idempotent (env : Env) (s : Store) (dimension : string)
    (l : list string) :
  disk_ok env = true →
  schema_get (tag_schema (data s)) dimension = Some l →
  (∀ tags, Forall (λ tag, tag ∈ l) tags →
     result_of (add_tags_to_schema env dimension tags) s = Return (tag_schema (data s)) ∧
     data (store_after (add_tags_to_schema env dimension tags) s) = data s) ∧
  (∀ tag, tag ∉ l →
     ∃ schema',
       result_of (add_tags_to_schema env dimension [tag]) s = Return schema' ∧
       data (store_after (add_tags_to_schema env dimension [tag]) s) =
         {| tag_schema := schema'; notes := notes (data s) |} ∧
       schema_get schema' dimension = Some (l ++ [tag]) ∧
       ∀ other, other ≠ dimension →
         schema_get schema' other = schema_get (tag_schema (data s)) other) ∧
  (∀ tag rest, tag ∈ l →
     add_tags_to_schema env dimension (tag :: rest) s =
     add_tags_to_schema env dimension rest s) ∧
  (∀ tag rest, tag ∉ l →
     ∃ schema',
       result_of (add_tags_to_schema env dimension (tag :: rest)) s = Return schema' ∧
       schema_get schema' dimension = Some (append_new (l ++ [tag]) rest)).
Proof.
  intros Hdisk Hget. unfold result_of, store_after. repeat split.
  - rewrite (add_tags_valid_dimension _ _ _ _ _ Hget). cbv zeta. rewrite Hdisk. simpl.
    by rewrite append_new_present, (schema_set_same _ _ _ Hget).
  - rewrite (add_tags_valid_dimension _ _ _ _ _ Hget). cbv zeta. rewrite Hdisk. simpl.
    rewrite append_new_present, (schema_set_same _ _ _ Hget); [|done].
    by destruct (data s).
  - intros tag Htag. eexists. rewrite (add_tags_valid_dimension _ _ _ _ _ Hget).
    cbv zeta. rewrite Hdisk, (append_new_absent _ _ _ Htag). simpl.
    split; [done|]. split; [done|]. split.
    + by apply (schema_get_set _ _ l).
    + intros other Hne. by apply schema_get_set_other.
  - intros tag rest Htag. rewrite !(add_tags_valid_dimension _ _ _ _ _ Hget).
    simpl. apply mem_true in Htag. by rewrite Htag.
  - intros tag rest Htag. eexists. rewrite (add_tags_valid_dimension _ _ _ _ _ Hget).
    cbv zeta. rewrite Hdisk. simpl. split; [done|].
    apply mem_false in Htag. rewrite Htag. simpl.
    by apply (schema_get_set _ _ l).
Qed.

(** An instance on the seed store: ["mcp"] is already a topic, so adding it
    changes nothing. *)
Lemma add_tags_to_schema_idempotent_witness :
  result_of (add_tags_to_schema (mkEnv (mkDatetime 2024 5 17 9 30 0 0) "unused" true)
               "topics" ["mcp"]) initial_store = Return seed_schema ∧
  data (store_after (add_tags_to_schema (mkEnv (mkDatetime 2024 5 17 9 30 0 0) "unused" true)
                       "topics" ["mcp"]) initial_store) = seed_document.
Proof.
  apply ((proj1 (add_tags_to_schema_idempotent
                   (mkEnv (mkDatetime 2024 5 17 9 30 0 0) "unused" true)
                   initial_store "topics" ["mcp"; "ai"; "coding"; "design"]
                   eq_refl eq_refl)) ["mcp"]).
  constructor; [|constructor]. apply mem_true. reflexivity.
Defined.

(* ===================================================================== *)
(** * The schema-membership invariant *)
(* ===================================================================== *)

Lemma note_in_schema_mono (a b : TagSchema) (n : Note) :
  s_category a ⊆ s_category b → s_type a ⊆ s_type b →
  s_priority a ⊆ s_priority b → s_topics a ⊆ s_topics b →
  note_in_schema a n → note_in_schema b n.
Proof.
  intros Hc Ht Hp Hts (Hnc & Hnt & Hnp & Hnts).
  split; [by apply Hc|]. split; [by apply Ht|]. split; [by apply Hp|].
  eapply Forall_impl; [done|]. intros x Hx. by apply Hts.
Qed.

Lemma append_new_subseteq (l tags : list string) : l ⊆ append_new l tags.
Proof. intros x Hx. apply append_new_elem. by left. Qed.

Lemma schema_set_grows (schema : TagSchema) (dimension : string) (l l' : list string) :
  schema_get schema dimension = Some l → l ⊆ l' →
  s_category schema ⊆ s_category (schema_set schema dimension l') ∧
  s_type schema ⊆ s_type (schema_set schema dimension l') ∧
  s_priority schema ⊆ s_priority (schema_set schema dimension l') ∧
  s_topics schema ⊆ s_topics (schema_set schema dimension l').
Proof.
  unfold schema_get, schema_set. intros Hget Hsub.
  destruct (dimension =? "category"); [by injection Hget as <-|].
  destruct (dimension =? "type"); [by injection Hget as <-|].
  destruct (dimension =? "priority"); [by injection Hget as <-|].
  destruct (dimension =? "topics"); [by injection Hget as <-|].
  done.
Qed.

Lemma or_empty_valid (valid : list string) (topics : option (list string)) :
  (∀ ts, topics = Some ts → Forall (λ topic, topic ∈ valid) ts) →
  Forall (λ topic, topic ∈ valid) (or_empty topics).
Proof.
  intros H. destruct topics as [[|t ts]|]; simpl; [constructor | | constructor].
  by apply H.
Qed.

Lemma updated_note_in_schema (schema : TagSchema) (now : string) (old : Note)
    (title content category type_tag priority : option string)
    (topics : option (list string)) :
  note_in_schema schema old →
  provided_valid schema category type_tag priority topics →
  note_in_schema schema
    (updated_note now old title content category type_tag priority topics).
Proof.
  intros (Hoc & Hot & Hop & Hots) (Hc & Ht & Hp & Hts).
  unfold note_in_schema. simpl.
  split; [destruct category; simpl; eauto|].
  split; [destruct type_tag; simpl; eauto|].
  split; [destruct priority; simpl; eauto|].
  destruct topics; simpl; eauto.
Qed.

Lemma create_note_preserves (env : Env) (title content category type_tag priority : string)
    (topics : option (list string)) (s : Store) :
  schema_membership (data s) →
  schema_membership
    (data (store_after (create_note env title content category type_tag priority topics) s)).
Proof.
  intros Hinv. unfold store_after.
  destruct (validate_tags_spec_cases (tag_schema (data s)) (Some category)
              (Some type_tag) (Some priority) topics) as [Hok|[m Hbad]].
  - rewrite (create_note_valid _ _ _ _ _ _ _ _ Hok). cbv zeta.
    assert (Hvalid : provided_valid (tag_schema (data s)) (Some category)
                       (Some type_tag) (Some priority) topics).
    { apply validate_tags_spec_valid. by rewrite Hok. }
    destruct Hvalid as (Hc & Ht & Hp & Hts).
    assert (Hnew : schema_membership
              {| tag_schema := tag_schema (data s);
                 notes := notes (data s) ++
                   [{| n_id := uuid4 env; n_title := title; n_content := content;
                       n_tags := {| t_category := category; t_type := type_tag;
                                    t_priority := priority;
                                    t_topics := or_empty topics |};
                       n_created := timestamp env; n_updated := timestamp env |}] |}).
    { unfold schema_membership. simpl. apply Forall_app. split; [done|].
      apply Forall_singleton. unfold note_in_schema. simpl.
      split; [by apply Hc|]. split; [by apply Ht|]. split; [by apply Hp|].
      by apply or_empty_valid. }
    by destruct (disk_ok env).
  - by rewrite (create_note_invalid _ _ _ _ _ _ _ _ _ Hbad).
Qed.

Lemma update_note_preserves (env : Env) (note_id : string)
    (title content category type_tag priority : option string)
    (topics : option (list string)) (s : Store) :
  schema_membership (data s) →
  schema_membership
    (data (store_after
             (update_note env note_id title content category type_tag priority topics) s)).
Proof.
  intros Hinv. unfold store_after.
  destruct (find_by_id note_id (notes (data s)) 0) as [[i note]|] eqn:Hfind.
  - destruct (validate_tags_spec_cases (tag_schema (data s)) category type_tag
                priority topics) as [Hok|[m Hbad]].
    + rewrite (update_note_valid _ _ _ _ _ _ _ _ _ _ _ Hfind Hok). cbv zeta.
      assert (Hnew : schema_membership
                {| tag_schema := tag_schema (data s);
                   notes := <[i := updated_note (timestamp env) note title content
                                     category type_tag priority topics]>
                              (notes (data s)) |}).
      { unfold schema_membership. simpl. apply Forall_insert; [done|].
        apply updated_note_in_schema.
        - apply find_by_id_first in Hfind as (Hi & _).
          by apply (Forall_lookup_1 _ _ _ _ Hinv Hi).
        - apply validate_tags_spec_valid. by rewrite Hok. }
      by destruct (disk_ok env).
    + by rewrite (update_note_invalid _ _ _ _ _ _ _ _ _ _ _ _ Hfind Hbad).
  - by rewrite (update_note_missing _ _ _ _ _ _ _ _ _ Hfind).
Qed.

Lemma delete_note_preserves (env : Env) (note_id : string) (s : Store) :
  schema_membership (data s) →
  schema_membership (data (store_after (delete_note env note_id) s)).
Proof.
  intros Hinv. unfold store_after.
  destruct (find_by_id note_id (notes (data s)) 0) as [[i note]|] eqn:Hfind.
  - rewrite (delete_note_found _ _ _ _ _ Hfind). cbv zeta.
    assert (Hnew : schema_membership
              {| tag_schema := tag_schema (data s); notes := delete i (notes (data s)) |}).
    { unfold schema_membership. simpl. by apply Forall_delete. }
    by destruct (disk_ok env).
  - by rewrite (delete_note_missing _ _ _ Hfind).
Qed.

Lemma add_tags_preserves (env : Env) (dimension : string) (tags : list string) (s : Store) :
  schema_membership (data s) →
  schema_membership (data (store_after (add_tags_to_schema env dimension tags) s)).
Proof.
  intros Hinv. unfold store_after.
  destruct (schema_get (tag_schema (data s)) dimension) as [l|] eqn:Hget.
  - rewrite (add_tags_valid_dimension _ _ _ _ _ Hget). cbv zeta.
    assert (Hnew : schema_membership
              {| tag_schema := schema_set (tag_schema (data s)) dimension
                                 (append_new l tags);
                 notes := notes (data s) |}).
    { unfold schema_membership. simpl.
      destruct (schema_set_grows _ _ _ _ Hget (append_new_subseteq l tags))
        as (Hc & Ht & Hp & Hts).
      eapply Forall_impl; [exact Hinv|]. intros n. by apply note_in_schema_mono. }
    by destruct (disk_ok env).
  - rewrite add_tags_invalid_dimension; [done|].
    destruct (mem dimension valid_dimensions) eqn:E; [|done].
    apply (schema_get_valid (tag_schema (data s))) in E as [l' Hl']. congruence.
Qed.

Lemma run_preserves (c : Call) (s : Store) :
  schema_membership (data s) → schema_membership (data (run c s)).
Proof.
  destruct c; simpl.
  - apply create_note_preserves.
  - apply update_note_preserves.
  - apply delete_note_preserves.
  - apply add_tags_preserves.
Qed.

(** C1 (schema-membership invariant).  In every store reachable from the
    seed document by calls of [create_note], [update_note], [delete_note]
    and [add_tags_to_schema] (whether they return or raise), the category,
    type and priority of every stored note belong to the corresponding
    dimension of the schema, and so does each of its topics. *)
Theorem schema_membership_invariant (s : Store) :
  reachable s → schema_membership (data s).
Proof.
  induction 1 as [|c s _ IH].
  - constructor.
  - by apply run_preserves.
Qed.

(** An instance: the store after creating one note and then retagging it. *)
Lemma schema_membership_invariant_witness :
  schema_membership
    (data (run (UpdateNote (mkEnv (mkDatetime 2024 5 17 9 31 0 0) "unused" true)
                  "note-1" None None (Some "personal") None None (Some ["ai"]))
            (run (CreateNote (mkEnv (mkDatetime 2024 5 17 9 30 0 0) "note-1" true)
                    "Title" "Body" "work" "todo" "active" (Some ["mcp"]))
               initial_store))).
Proof.
  apply schema_membership_invariant.
  apply reachable_call, reachable_call, reachable_initial.
Defined.

(* ===================================================================== *)
(** * Zero-padded decimal fields and the order of timestamps *)
(* ===================================================================== *)





















(* ===================================================================== *)
(** * update_note on success, and the timestamps *)
(* ===================================================================== *)

(** C4 (updateNote success semantics).  For an id carried by a stored note
    (the first such note, at position [i], is the one updated), provided
    tags that are all in the schema and a write that goes through,
    [update_note] returns the note in which every provided field has the
    provided value and every omitted field its previous value, with [id] and
    [created] untouched; that note replaces the old one at position [i] and
    nothing else in the document changes.  Topics are replaced wholesale: an
    empty list empties them, omitting them keeps them. *)
Theorem update_note_success (env : Env) (note_id : string)
    (title content category type_tag priority : option string)
    (topics : option (list string)) (s : Store) (i : nat) (old : Note) :
  disk_ok env = true →
  first_with_id note_id (notes (data s)) i old →
  provided_valid (tag_schema (data s)) category type_tag priority topics →
  ∃ new,
    result_of (update_note env note_id title content category type_tag priority topics) s
      = Return new ∧
    data (store_after
            (update_note env note_id title content category type_tag priority topics) s)
      = {| tag_schema := tag_schema (data s); notes := <[i := new]> (notes (data s)) |} ∧
    n_id new = n_id old ∧
    n_created new = n_created old ∧
    n_title new = default (n_title old) title ∧
    n_content new = default (n_content old) content ∧
    t_category (n_tags new) = default (t_category (n_tags old)) category ∧
    t_type (n_tags new) = default (t_type (n_tags old)) type_tag ∧
    t_priority (n_tags new) = default (t_priority (n_tags old)) priority ∧
    t_topics (n_tags new) = default (t_topics (n_tags old)) topics ∧
    (topics = Some [] → t_topics (n_tags new) = []) ∧
    (topics = None → t_topics (n_tags new) = t_topics (n_tags old)).
Proof.
  intros Hdisk Hfirst Hvalid.
  apply find_by_id_first in Hfirst. apply validate_tags_spec_true in Hvalid.
  exists (updated_note (timestamp env) old title content category type_tag priority topics).
  unfold result_of, store_after.
  rewrite (update_note_valid _ _ _ _ _ _ _ _ _ _ _ Hfirst Hvalid). cbv zeta.
  rewrite Hdisk. simpl. repeat split; by intros ->.
Qed.

(** An instance: a note created with topic ["mcp"] is updated with an empty
    list of topics, which empties them. *)
Lemma update_note_success_witness :
  ∃ new,
    result_of (update_note (mkEnv (mkDatetime 2024 5 17 9 31 0 0) "unused" true)
                 "note-1" None None None None None (Some []))
      (store_after (create_note (mkEnv (mkDatetime 2024 5 17 9 30 0 0) "note-1" true)
                      "Title" "Body" "work" "todo" "active" (Some ["mcp"]))
         initial_store) = Return new ∧
    n_title new = "Title" ∧ t_topics (n_tags new) = [].
Proof.
  destruct (update_note_success (mkEnv (mkDatetime 2024 5 17 9 31 0 0) "unused" true)
              "note-1" None None None None None (Some [])
              (store_after (create_note (mkEnv (mkDatetime 2024 5 17 9 30 0 0) "note-1" true)
                              "Title" "Body" "work" "todo" "active" (Some ["mcp"]))
                 initial_store)
              0
              {| n_id := "note-1"; n_title := "Title"; n_content := "Body";
                 n_tags := {| t_category := "work"; t_type := "todo";
                              t_priority := "active"; t_topics := ["mcp"] |};
                 n_created := "2024-05-17T09:30:00Z";
                 n_updated := "2024-05-17T09:30:00Z" |})
    as (new & Hres & _ & _ & _ & Htitle & _ & _ & _ & _ & _ & Htopics & _).
  - reflexivity.
  - split; [reflexivity|]. split; [reflexivity|]. intros j m Hj. lia.
  - split; [by intros ? [=]|]. split; [by intros ? [=]|]. split; [by intros ? [=]|].
    intros ts [= <-]. constructor.
  - exists new. split; [exact Hres|]. split; [exact Htitle | by apply Htopics].
Defined.



(** The same reading of the clock twice (a coarse or stepped-back clock):
    the update succeeds and [updated] keeps its value. *)
Lemma updated_unchanged_on_equal_reading :
  result_of (update_note (mkEnv (mkDatetime 2024 1 1 10 0 0 0) "unused" true)
               "note-1" (Some "Retitled") None None None None None)
    (store_after (create_note (mkEnv (mkDatetime 2024 1 1 10 0 0 0) "note-1" true)
                    "Title" "Body" "work" "todo" "active" None) initial_store) =
    Return {| n_id := "note-1"; n_title := "Retitled"; n_content := "Body";
              n_tags := {| t_category := "work"; t_type := "todo";
                           t_priority := "active"; t_topics := [] |};
              n_created := "2024-01-01T10:00:00Z";
              n_updated := "2024-01-01T10:00:00Z" |} ∧
  ("2024-01-01T10:00:00Z" <? "2024-01-01T10:00:00Z") = false.
Proof. split; reflexivity. Qed.


(* ===================================================================== *)
(** * find_notes *)
(* ===================================================================== *)

Lemma not_provided_and {A} (o : option A) (f g : A → bool) :
  (∀ a, negb (f a) = g a) → negb (provided_and o f) = within o g.
Proof. intros H. destruct o; simpl; [apply H | done]. Qed.

Lemma existsb_Exists (topics requested : list string) :
  existsb (λ topic, mem topic topics) requested =
  bool_decide (Exists (λ topic, topic ∈ topics) requested).
Proof.
  induction requested as [|topic rest IH]; cbn [existsb].
  - symmetry. apply bool_decide_eq_false_2. by intros H%Exists_nil.
  - rewrite IH. destruct (mem topic topics) eqn:E; cbn [orb].
    + symmetry. apply bool_decide_eq_true_2. left. by apply mem_true.
    + apply mem_false in E. apply bool_decide_ext. rewrite Exists_cons. tauto.
Qed.

(** A note is appended to the results exactly when it matches the query. *)
Lemma skipped_matches (lower : string → string) (q : Query) (n : Note) :
  negb (skipped lower q n) = matches lower q n.
Proof.
  unfold matches, date_bounds_hold.
  rewrite <- (not_provided_and (q_category q)
                (λ c, negb (t_category (n_tags n) =? c))).
  2: { intros c. rewrite negb_involutive.
       destruct (String.eqb_spec (t_category (n_tags n)) c);
         [by rewrite bool_decide_eq_true_2 | by rewrite bool_decide_eq_false_2]. }
  rewrite <- (not_provided_and (q_type q) (λ t, negb (t_type (n_tags n) =? t))).
  2: { intros c. rewrite negb_involutive.
       destruct (String.eqb_spec (t_type (n_tags n)) c);
         [by rewrite bool_decide_eq_true_2 | by rewrite bool_decide_eq_false_2]. }
  rewrite <- (not_provided_and (q_priority q) (λ p, negb (t_priority (n_tags n) =? p))).
  2: { intros c. rewrite negb_involutive.
       destruct (String.eqb_spec (t_priority (n_tags n)) c);
         [by rewrite bool_decide_eq_true_2 | by rewrite bool_decide_eq_false_2]. }
  rewrite <- (not_provided_and (q_topics q)
                (λ ts, negb (existsb (λ topic, mem topic (t_topics (n_tags n))) ts))).
  2: { intros ts. rewrite negb_involutive. apply existsb_Exists. }
  rewrite <- (not_provided_and (q_title_contains q)
                (λ t, negb (contains (lower t) (lower (n_title n))))).
  2: { intros t. apply negb_involutive. }
  rewrite <- (not_provided_and (q_created_after q) (λ b, n_created n <? b)).
  2: { intros b. apply not_ltb_leb. }
  rewrite <- (not_provided_and (q_created_before q) (λ b, gtb (n_created n) b)).
  2: { intros b. apply not_gtb_leb. }
  rewrite <- (not_provided_and (q_updated_after q) (λ b, n_updated n <? b)).
  2: { intros b. apply not_ltb_leb. }
  rewrite <- (not_provided_and (q_updated_before q) (λ b, gtb (n_updated n) b)).
  2: { intros b. apply not_gtb_leb. }
  unfold skipped.
  repeat match goal with
         | |- context [provided_and ?o ?f] => destruct (provided_and o f); simpl; try done
         end.
Qed.

Lemma find_loop_filter (lower : string → string) (q : Query) (l results : list Note) :
  find_loop lower q l results = results ++ List.filter (matches lower q) l.
Proof.
  revert results. induction l as [|note rest IH]; intros results; simpl.
  - by rewrite app_nil_r.
  - rewrite <- skipped_matches. destruct (skipped lower q note); simpl.
    + apply IH.
    + rewrite IH, <- app_assoc. done.
Qed.

Lemma find_notes_run (lower : string → string) (q : Query) (s : Store) :
  find_notes lower q s = (Return (List.filter (matches lower q) (notes (data s))), s).
Proof. unfold find_notes. run_store. by rewrite find_loop_filter. Qed.

Lemma matches_split_dates (lower : string → string) (q : Query) (n : Note) :
  matches lower q n = matches lower (without_dates q) n && date_bounds_hold q n.
Proof.
  unfold matches at 2. unfold date_bounds_hold at 2. simpl.
  by rewrite !andb_true_r.
Qed.

Lemma filter_ext_bool {A} (f g : A → bool) (l : list A) :
  (∀ a, f a = g a) → List.filter f l = List.filter g l.
Proof. intros H. induction l as [|a l IH]; simpl; [done|]. by rewrite H, IH. Qed.

Lemma filter_all {A} (f : A → bool) (l : list A) :
  (∀ a, f a = true) → List.filter f l = l.
Proof. intros H. induction l as [|a l IH]; simpl; [done|]. by rewrite H, IH. Qed.

Lemma filter_none {A} (f : A → bool) (l : list A) :
  List.filter f l = [] ↔ ∀ a, a ∈ l → f a = false.
Proof.
  induction l as [|a l IH]; simpl.
  - split; [|done]. intros _ a Ha. by apply elem_of_nil in Ha.
  - destruct (f a) eqn:E.
    + split; [done|]. intros H. specialize (H a (list_elem_of_here _ _)). congruence.
    + rewrite IH. split.
      * intros H x Hx. apply elem_of_cons in Hx as [->|Hx]; [done | by apply H].
      * intros H x Hx. apply H. by right.
Qed.

Lemma filter_sublist {A} (f : A → bool) (l : list A) : List.filter f l `sublist_of` l.
Proof.
  induction l as [|a l IH]; simpl; [done|].
  destruct (f a); [by apply sublist_skip | by apply sublist_cons].
Qed.

(** C3 (date bounds of findNotes).  On top of the other filters, the date
    filters keep exactly the notes within the bounds, both bounds included,
    in the lexical order of strings: [created_after] keeps [created >= bound],
    [created_before] keeps [created <= bound], and the same for [updated]. *)
Theorem find_notes_date_bounds (lower : string → string) (s : Store) :
  (∀ q, result_of (find_notes lower q) s =
        Return (List.filter (λ n, matches lower (without_dates q) n && date_bounds_hold q n)
                  (notes (data s)))) ∧
  (∀ bound,
     result_of (find_notes lower
                  (mkQuery None None None None None (Some bound) None None None)) s =
     Return (List.filter (λ n, bound <=? n_created n) (notes (data s)))) ∧
  (∀ bound,
     result_of (find_notes lower
                  (mkQuery None None None None None None (Some bound) None None)) s =
     Return (List.filter (λ n, n_created n <=? bound) (notes (data s)))) ∧
  (∀ bound,
     result_of (find_notes lower
                  (mkQuery None None None None None None None (Some bound) None)) s =
     Return (List.filter (λ n, bound <=? n_updated n) (notes (data s)))) ∧
  (∀ bound,
     result_of (find_notes lower
                  (mkQuery None None None None None None None None (Some bound))) s =
     Return (List.filter (λ n, n_updated n <=? bound) (notes (data s)))).
Proof.
  unfold result_of. repeat split; intros; rewrite find_notes_run; simpl; f_equal;
    apply filter_ext_bool; intros n.
  1: apply matches_split_dates.
  all: unfold matches, date_bounds_hold; simpl; by rewrite ?andb_true_r.
Qed.

Lemma matches_no_filters (lower : string → string) (n : Note) :
  matches lower no_filters n = true.
Proof. reflexivity. Qed.

Lemma matches_and (lower : string → string) (q : Query) (n : Note) :
  matches lower q n = true ↔
  (∀ c, q_category q = Some c → t_category (n_tags n) = c) ∧
  (∀ t, q_type q = Some t → t_type (n_tags n) = t) ∧
  (∀ p, q_priority q = Some p → t_priority (n_tags n) = p) ∧
  (∀ ts, q_topics q = Some ts → ∃ topic, topic ∈ ts ∧ topic ∈ t_topics (n_tags n)) ∧
  (∀ t, q_title_contains q = Some t → contains (lower t) (lower (n_title n)) = true) ∧
  (∀ b, q_created_after q = Some b → (b <=? n_created n) = true) ∧
  (∀ b, q_created_before q = Some b → (n_created n <=? b) = true) ∧
  (∀ b, q_updated_after q = Some b → (b <=? n_updated n) = true) ∧
  (∀ b, q_updated_before q = Some b → (n_updated n <=? b) = true).
Proof.
  assert (Hwithin : ∀ A (o : option A) (f : A → bool),
            within o f = true ↔ ∀ a, o = Some a → f a = true).
  { intros A [a|] f; simpl.
    - split; [by intros H ? [= <-] | eauto].
    - by split. }
  unfold matches, date_bounds_hold.
  rewrite !andb_true_iff, !Hwithin.
  setoid_rewrite bool_decide_eq_true.
  setoid_rewrite Exists_exists.
  tauto.
Qed.

(** C6 (filter combination of findNotes).  [find_notes] never raises and
    leaves the store alone; it returns, in document order, exactly the notes
    that satisfy every provided filter, where the topics filter asks for at
    least one of the requested topics; without filters that is every note;
    and when no note matches the result is the empty list. *)
Theorem find_notes_filter_combination (lower : string → string) (s : Store) :
  (∀ q, find_notes lower q s =
        (Return (List.filter (matches lower q) (notes (data s))), s)) ∧
  (∀ q n, matches lower q n = true ↔
     (∀ c, q_category q = Some c → t_category (n_tags n) = c) ∧
     (∀ t, q_type q = Some t → t_type (n_tags n) = t) ∧
     (∀ p, q_priority q = Some p → t_priority (n_tags n) = p) ∧
     (∀ ts, q_topics q = Some ts → ∃ topic, topic ∈ ts ∧ topic ∈ t_topics (n_tags n)) ∧
     (∀ t, q_title_contains q = Some t → contains (lower t) (lower (n_title n)) = true) ∧
     (∀ b, q_created_after q = Some b → (b <=? n_created n) = true) ∧
     (∀ b, q_created_before q = Some b → (n_created n <=? b) = true) ∧
     (∀ b, q_updated_after q = Some b → (b <=? n_updated n) = true) ∧
     (∀ b, q_updated_before q = Some b → (n_updated n <=? b) = true)) ∧
  (∀ q found, result_of (find_notes lower q) s = Return found →
     found `sublist_of` notes (data s)) ∧
  result_of (find_notes lower no_filters) s = Return (notes (data s)) ∧
  (∀ q, (∀ n, n ∈ notes (data s) → matches lower q n = false) →
     result_of (find_notes lower q) s = Return []).
Proof.
  unfold result_of. split; [intros q; apply find_notes_run|].
  split; [intros q n; apply matches_and|]. split; [|split].
  - intros q found. rewrite find_notes_run. simpl. intros [= <-]. apply filter_sublist.
  - rewrite find_notes_run. simpl. f_equal. apply filter_all, matches_no_filters.
  - intros q H. rewrite find_notes_run. simpl. f_equal. by apply filter_none.
Qed.

(** An instance, the scenario of the specification: a note tagged work /
    todo / active with topic ["mcp"] is found by the topics ["mcp"; "ai"] and
    not by the category ["personal"], for which the result is empty. *)
Lemma find_notes_filter_combination_witness :
  result_of (find_notes (λ t, t) (mkQuery None None None (Some ["mcp"; "ai"]) None
                                    None None None None))
    (store_after (create_note (mkEnv (mkDatetime 2024 5 17 9 30 0 0) "note-1" true)
                    "Title" "Body" "work" "todo" "active" (Some ["mcp"])) initial_store) =
    Return [ {| n_id := "note-1"; n_title := "Title"; n_content := "Body";
                n_tags := {| t_category := "work"; t_type := "todo";
                             t_priority := "active"; t_topics := ["mcp"] |};
                n_created := "2024-05-17T09:30:00Z";
                n_updated := "2024-05-17T09:30:00Z" |} ] ∧
  result_of (find_notes (λ t, t) (mkQuery (Some "personal") None None None None
                                    None None None None))
    (store_after (create_note (mkEnv (mkDatetime 2024 5 17 9 30 0 0) "note-1" true)
                    "Title" "Body" "work" "todo" "active" (Some ["mcp"])) initial_store) =
    Return [].
Proof.
  split; [reflexivity|].
  apply (proj2 (proj2 (proj2 (proj2
    (find_notes_filter_combination (λ t, t)
       (store_after (create_note (mkEnv (mkDatetime 2024 5 17 9 30 0 0) "note-1" true)
                       "Title" "Body" "work" "todo" "active" (Some ["mcp"]))
          initial_store)))))).
  intros n Hn. apply list_elem_of_singleton in Hn. subst n. reflexivity.
Defined.

(* ===================================================================== *)
(** * list_tags *)
(* ===================================================================== *)

Lemma histogram_entry_default (k : nat) : default 0 (histogram_entry k) = k.
Proof. by destruct k. Qed.

Lemma histogram_entry_succ (k : nat) : histogram_entry (k + 1) = Some (k + 1).
Proof. by rewrite Nat.add_1_r. Qed.

Lemma histogram_entry_some (k : nat) : is_Some (histogram_entry k) ↔ 0 < k.
Proof.
  destruct k; simpl.
  - split; [by intros [? ?] | lia].
  - split; [lia | eauto].
Qed.

(** One increment: the counter of the key grows by one, the others stay. *)
Lemma bump_entry (k tag : string) (m : gmap string nat) (c : nat) :
  m !! tag = histogram_entry c →
  bump k m !! tag = histogram_entry (c + (if decide (k = tag) then 1 else 0)).
Proof.
  intros H. unfold bump. destruct (decide (k = tag)) as [->|Hne].
  - by rewrite lookup_insert_eq, H, histogram_entry_default, histogram_entry_succ.
  - by rewrite lookup_insert_ne, Nat.add_0_r.
Qed.

Lemma bump_all_entry (topics : list string) (tag : string) (m : gmap string nat) (c : nat) :
  m !! tag = histogram_entry c →
  bump_all topics m !! tag =
  histogram_entry (c + length (filter (λ topic, topic = tag) topics)).
Proof.
  revert m c. induction topics as [|topic rest IH]; intros m c H; simpl.
  - by rewrite Nat.add_0_r.
  - rewrite (IH _ _ (bump_entry topic tag m c H)), filter_cons.
    destruct (decide (topic = tag)); simpl; f_equal; lia.
Qed.

Lemma carriers_cons (field : Note → string) (tag : string) (n : Note) (l : list Note) :
  carriers field tag (n :: l) =
  (if decide (field n = tag) then 1 else 0) + carriers field tag l.
Proof. unfold carriers. rewrite filter_cons. by destruct (decide (field n = tag)). Qed.

Lemma occurrences_cons (tag : string) (n : Note) (l : list Note) :
  occurrences tag (n :: l) =
  length (filter (λ topic, topic = tag) (t_topics (n_tags n))) + occurrences tag l.
Proof. unfold occurrences. simpl. by rewrite filter_app, length_app. Qed.

(** The loop of [list_tags], from any counters that are histograms. *)
Lemma count_notes_entries (l : list Note) (counts : Counts) (tag : string)
    (c t p ts : nat) :
  c_category counts !! tag = histogram_entry c →
  c_type counts !! tag = histogram_entry t →
  c_priority counts !! tag = histogram_entry p →
  c_topics counts !! tag = histogram_entry ts →
  c_category (fold_left count_note l counts) !! tag =
    histogram_entry (c + carriers (λ n, t_category (n_tags n)) tag l) ∧
  c_type (fold_left count_note l counts) !! tag =
    histogram_entry (t + carriers (λ n, t_type (n_tags n)) tag l) ∧
  c_priority (fold_left count_note l counts) !! tag =
    histogram_entry (p + carriers (λ n, t_priority (n_tags n)) tag l) ∧
  c_topics (fold_left count_note l counts) !! tag =
    histogram_entry (ts + occurrences tag l).
Proof.
  revert counts c t p ts. induction l as [|n l IH]; intros counts c t p ts Hc Ht Hp Hts.
  - unfold carriers, occurrences. simpl. by rewrite !Nat.add_0_r.
  - simpl. rewrite !carriers_cons, occurrences_cons, !Nat.add_assoc.
    apply IH; simpl.
    + by apply bump_entry.
    + by apply bump_entry.
    + by apply bump_entry.
    + by apply bump_all_entry.
Qed.

Lemma carriers_positive (field : Note → string) (tag : string) (l : list Note) :
  0 < carriers field tag l ↔ ∃ n, n ∈ l ∧ field n = tag.
Proof.
  unfold carriers. split.
  - intros H. destruct (filter (λ n, field n = tag) l) as [|n rest] eqn:E; simpl in H; [lia|].
    assert (Hn : n ∈ filter (λ n, field n = tag) l) by (rewrite E; left).
    apply list_elem_of_filter in Hn as [Hf Hn]. eauto.
  - intros (n & Hn & Hf).
    assert (Hin : n ∈ filter (λ n, field n = tag) l) by by apply list_elem_of_filter.
    destruct (filter (λ n, field n = tag) l); simpl; [by apply elem_of_nil in Hin | lia].
Qed.

Lemma occurrences_positive (tag : string) (l : list Note) :
  0 < occurrences tag l ↔ ∃ n, n ∈ l ∧ tag ∈ t_topics (n_tags n).
Proof.
  induction l as [|n l IH].
  - unfold occurrences. simpl. split; [lia|]. intros (n & Hn & _). by apply elem_of_nil in Hn.
  - rewrite occurrences_cons. split.
    + intros H.
      destruct (filter (λ topic, topic = tag) (t_topics (n_tags n))) as [|x rest] eqn:E.
      * simpl in H. apply IH in H as (m & Hm & Htag). exists m. split; [by right | done].
      * assert (Hx : x ∈ filter (λ topic, topic = tag) (t_topics (n_tags n)))
          by (rewrite E; left).
        apply list_elem_of_filter in Hx as [-> Hx]. exists n. split; [left | done].
    + intros (m & Hm & Htag). apply elem_of_cons in Hm as [->|Hm].
      * assert (Hin : tag ∈ filter (λ topic, topic = tag) (t_topics (n_tags n)))
          by by apply list_elem_of_filter.
        destruct (filter (λ topic, topic = tag) (t_topics (n_tags n))); simpl;
          [by apply elem_of_nil in Hin | lia].
      * assert (0 < occurrences tag l) by (apply IH; eauto). lia.
Qed.

(** When no note repeats a topic, the occurrences of a topic are the notes
    that carry it. *)
Lemma occurrences_carriers (tag : string) (l : list Note) :
  Forall (λ n, NoDup (t_topics (n_tags n))) l →
  occurrences tag l = length (filter (λ n, tag ∈ t_topics (n_tags n)) l).
Proof.
  assert (Hone : ∀ ts : list string, NoDup ts →
            length (filter (λ topic, topic = tag) ts) = if decide (tag ∈ ts) then 1 else 0).
  { induction 1 as [|x ts Hx Hts IH]; [done|].
    rewrite filter_cons.
    destruct (decide (x = tag)) as [->|Hne], (decide (tag ∈ ts)) as [Hin|Hout];
      simpl; rewrite IH.
    - contradiction.
    - by rewrite decide_True by left.
    - by rewrite decide_True by by right.
    - rewrite decide_False; [done|].
      intros [?|?]%elem_of_cons; [congruence | contradiction]. }
  induction 1 as [|n l Hn _ IH]; [done|].
  rewrite occurrences_cons, IH, (Hone _ Hn), filter_cons.
  by destruct (decide (tag ∈ t_topics (n_tags n))).
Qed.

(** C9, as the code has it (listTags is a usage histogram).  [list_tags]
    never raises and leaves the store alone.  In the category, type and
    priority dimensions a tag carried by [k > 0] notes is mapped to [k], and
    a tag carried by no note (in the schema or not) has no entry.  In the
    topics dimension a topic is mapped to the number of its occurrences in
    the topic sequences of all the notes, each occurrence counting for one,
    and a topic that occurs nowhere has no entry; when no note repeats a
    topic, that number is the number of notes carrying the topic. *)
Theorem list_tags_histogram (s : Store) :
  ∃ counts,
    list_tags s = (Return counts, s) ∧
    ∀ tag,
      c_category counts !! tag =
        histogram_entry (carriers (λ n, t_category (n_tags n)) tag (notes (data s))) ∧
      c_type counts !! tag =
        histogram_entry (carriers (λ n, t_type (n_tags n)) tag (notes (data s))) ∧
      c_priority counts !! tag =
        histogram_entry (carriers (λ n, t_priority (n_tags n)) tag (notes (data s))) ∧
      c_topics counts !! tag = histogram_entry (occurrences tag (notes (data s))) ∧
      (is_Some (c_category counts !! tag) ↔
         ∃ n, n ∈ notes (data s) ∧ t_category (n_tags n) = tag) ∧
      (is_Some (c_type counts !! tag) ↔
         ∃ n, n ∈ notes (data s) ∧ t_type (n_tags n) = tag) ∧
      (is_Some (c_priority counts !! tag) ↔
         ∃ n, n ∈ notes (data s) ∧ t_priority (n_tags n) = tag) ∧
      (is_Some (c_topics counts !! tag) ↔
         ∃ n, n ∈ notes (data s) ∧ tag ∈ t_topics (n_tags n)) ∧
      (Forall (λ n, NoDup (t_topics (n_tags n))) (notes (data s)) →
       c_topics counts !! tag =
         histogram_entry
           (length (filter (λ n, tag ∈ t_topics (n_tags n)) (notes (data s))))).
Proof.
  exists (fold_left count_note (notes (data s)) empty_counts).
  split; [done|]. intros tag.
  destruct (count_notes_entries (notes (data s)) empty_counts tag 0 0 0 0)
    as (Hc & Ht & Hp & Hts); try apply lookup_empty.
  simpl in Hc, Ht, Hp, Hts.
  rewrite Hc, Ht, Hp, Hts, !histogram_entry_some, !carriers_positive, occurrences_positive.
  repeat split; try tauto.
  intros Hnodup. by rewrite occurrences_carriers.
Qed.

(** An instance: two notes without repeated topics, both carrying ["ai"]. *)
Lemma list_tags_histogram_witness :
  ∃ counts,
    result_of list_tags
      (run (CreateNote (mkEnv (mkDatetime 2024 5 17 9 31 0 0) "note-2" true)
              "Second" "Body" "work" "idea" "soon" (Some ["ai"]))
         (run (CreateNote (mkEnv (mkDatetime 2024 5 17 9 30 0 0) "note-1" true)
                 "First" "Body" "work" "todo" "active" (Some ["mcp"; "ai"; "coding"]))
            initial_store)) = Return counts ∧
    c_topics counts !! "ai" = Some 2.
Proof.
  destruct (list_tags_histogram
              (run (CreateNote (mkEnv (mkDatetime 2024 5 17 9 31 0 0) "note-2" true)
                      "Second" "Body" "work" "idea" "soon" (Some ["ai"]))
                 (run (CreateNote (mkEnv (mkDatetime 2024 5 17 9 30 0 0) "note-1" true)
                         "First" "Body" "work" "todo" "active"
                         (Some ["mcp"; "ai"; "coding"]))
                    initial_store)))
    as (counts & Hrun & Hcounts).
  exists counts. split; [unfold result_of; by rewrite Hrun|].
  destruct (Hcounts "ai") as (_ & _ & _ & _ & _ & _ & _ & _ & Hcarriers).
  rewrite Hcarriers; [reflexivity|].
  repeat constructor; rewrite ?elem_of_cons, ?elem_of_nil; intuition discriminate.
Defined.

(** C9 as stated fails in the topics dimension.  [validate_tags] only tests
    membership, so [create_note] stores the topics ["mcp"; "mcp"] as given;
    one note then carries ["mcp"], while its counter is 2. *)
Lemma topic_counter_exceeds_carriers :
  ∃ counts,
    result_of list_tags
      (store_after (create_note (mkEnv (mkDatetime 2024 5 17 9 30 0 0) "note-1" true)
                      "First" "Body" "work" "todo" "active" (Some ["mcp"; "mcp"]))
         initial_store) = Return counts ∧
    c_topics counts !! "mcp" = Some 2 ∧
    length (filter (λ n, "mcp" ∈ t_topics (n_tags n))
              (notes (data
                 (store_after
                    (create_note (mkEnv (mkDatetime 2024 5 17 9 30 0 0) "note-1" true)
                       "First" "Body" "work" "todo" "active" (Some ["mcp"; "mcp"]))
                    initial_store)))) = 1.
Proof.
  eexists. split; [reflexivity|]. split; vm_compute; reflexivity.
Qed.

(** The scenario of the specification: two notes in category ["work"] give
    the count 2; ["personal"], in the schema but unused, has no entry; the
    three topics of the first note feed three counters. *)
Example list_tags_two_notes :
  ∃ counts,
    result_of list_tags
      (run (CreateNote (mkEnv (mkDatetime 2024 5 17 9 31 0 0) "note-2" true)
              "Second" "Body" "work" "idea" "soon" (Some ["ai"]))
         (run (CreateNote (mkEnv (mkDatetime 2024 5 17 9 30 0 0) "note-1" true)
                 "First" "Body" "work" "todo" "active" (Some ["mcp"; "ai"; "coding"]))
            initial_store)) = Return counts ∧
    c_category counts !! "work" = Some 2 ∧
    c_category counts !! "personal" = None ∧
    c_topics counts !! "mcp" = Some 1 ∧
    c_topics counts !! "ai" = Some 2 ∧
    c_topics counts !! "coding" = Some 1 ∧
    c_topics counts !! "design" = None.
Proof. eexists. split; [reflexivity|]. repeat split; vm_compute; reflexivity. Qed.

(** [validate_tags] checks membership only, so a note may repeat a topic;
    each repetition is counted. *)
Example list_tags_repeated_topic :
  ∃ counts,
    result_of list_tags
      (run (CreateNote (mkEnv (mkDatetime 2024 5 17 9 30 0 0) "note-1" true)
              "First" "Body" "work" "todo" "active" (Some ["mcp"; "mcp"]))
         initial_store) = Return counts ∧
    c_topics counts !! "mcp" = Some 2 ∧
    c_category counts !! "work" = Some 1.
Proof. eexists. split; [reflexivity|]. split; vm_compute; reflexivity. Qed.

(* ===================================================================== *)
(** * Reading, creating and deleting notes *)
(* ===================================================================== *)

Lemma read_note_run (note_id : string) (s : Store) :
  read_note note_id s =
  (match find_by_id note_id (notes (data s)) 0 with
   | Some (_, note) => Return note
   | None => Raise (ValueError (not_found_message note_id))
   end, s).
Proof.
  unfold read_note. run_store.
  by destruct (find_by_id note_id (notes (data s)) 0) as [[i note]|].
Qed.

(** X1 (read_note).  [read_note] never changes the store; it returns the
    first note of the document that carries the id, and raises the not-found
    [ValueError] when no note carries it. *)
Theorem read_note_first_match (note_id : string) (s : Store) :
  store_after (read_note note_id) s = s ∧
  (∀ i n, first_with_id note_id (notes (data s)) i n →
     result_of (read_note note_id) s = Return n) ∧
  ((∀ n, n ∈ notes (data s) → n_id n ≠ note_id) →
     result_of (read_note note_id) s = Raise (ValueError (not_found_message note_id))).
Proof.
  unfold result_of, store_after. rewrite read_note_run. simpl.
  split; [done|]. split.
  - intros i n H. apply find_by_id_first in H. by rewrite H.
  - intros H. apply find_by_id_none with (k := 0) in H. by rewrite H.
Qed.

(** An instance: reading an id that the seed store does not have. *)
Lemma read_note_first_match_witness :
  result_of (read_note "missing-id") initial_store =
  Raise (ValueError "Note with ID 'missing-id' not found").
Proof.
  apply (proj2 (proj2 (read_note_first_match "missing-id" initial_store))).
  intros n Hn. simpl in Hn. by apply elem_of_nil in Hn.
Defined.

Lemma or_empty_default (topics : option (list string)) :
  or_empty topics = default [] topics.
Proof. by destruct topics as [[|t ts]|]. Qed.

(** X2 (create_note on success).  With category, type, priority and topics
    in the schema and a write that goes through, [create_note] returns a
    note with the generated id and the given title, content and tags, whose
    topics are the given list, or the empty list when none was given; the
    note is appended at the end of the document, nothing else in the
    document changes, and the file then holds that document. *)
Theorem create_note_success (env : Env) (title content category type_tag priority : string)
    (topics : option (list string)) (s : Store) :
  disk_ok env = true →
  provided_valid (tag_schema (data s)) (Some category) (Some type_tag) (Some priority)
    topics →
  ∃ note,
    result_of (create_note env title content category type_tag priority topics) s
      = Return note ∧
    data (store_after (create_note env title content category type_tag priority topics) s)
      = {| tag_schema := tag_schema (data s); notes := notes (data s) ++ [note] |} ∧
    file (store_after (create_note env title content category type_tag priority topics) s)
      = Some {| tag_schema := tag_schema (data s); notes := notes (data s) ++ [note] |} ∧
    n_id note = uuid4 env ∧ n_title note = title ∧ n_content note = content ∧
    n_tags note = {| t_category := category; t_type := type_tag;
                     t_priority := priority; t_topics := default [] topics |}.
Proof.
  intros Hdisk Hvalid. apply validate_tags_spec_true in Hvalid.
  eexists. unfold result_of, store_after.
  rewrite (create_note_valid _ _ _ _ _ _ _ _ Hvalid). cbv zeta. rewrite Hdisk. simpl.
  rewrite or_empty_default. done.
Qed.

(** An instance: a note created on the seed store without topics. *)
Lemma create_note_success_witness :
  ∃ note,
    result_of (create_note (mkEnv (mkDatetime 2024 5 17 9 30 0 0) "note-1" true)
                 "Title" "Body" "work" "todo" "active" None) initial_store = Return note ∧
    n_id note = "note-1" ∧ t_topics (n_tags note) = [].
Proof.
  destruct (create_note_success (mkEnv (mkDatetime 2024 5 17 9 30 0 0) "note-1" true)
              "Title" "Body" "work" "todo" "active" None initial_store)
    as (note & Hres & _ & _ & Hid & _ & _ & Htags).
  - reflexivity.
  - split; [|split; [|split]].
    + intros c [= <-]. apply mem_true. reflexivity.
    + intros t [= <-]. apply mem_true. reflexivity.
    + intros p [= <-]. apply mem_true. reflexivity.
    + intros ts [=].
  - exists note. split; [exact Hres|]. split; [exact Hid|]. by rewrite Htags.
Defined.

Lemma find_by_id_app (note_id : string) (l l' : list Note) (k : nat) :
  (∀ n, n ∈ l → n_id n ≠ note_id) →
  find_by_id note_id (l ++ l') k = find_by_id note_id l' (k + length l).
Proof.
  revert k. induction l as [|m l IH]; intros k H; simpl.
  - by rewrite Nat.add_0_r.
  - destruct (String.eqb_spec (n_id m) note_id) as [Heq|_].
    + exfalso. apply (H m); [left | done].
    + rewrite IH; [f_equal; lia|]. intros n Hn. apply H. by right.
Qed.

(** X3 (create, then read).  When the generated id is carried by no stored
    note, reading that id right after a successful [create_note] returns the
    note that [create_note] returned. *)
Theorem read_after_create (env : Env) (title content category type_tag priority : string)
    (topics : option (list string)) (s : Store) (note : Note) :
  uuid4 env ∉ note_ids (data s) →
  result_of (create_note env title content category type_tag priority topics) s
    = Return note →
  result_of (read_note (uuid4 env))
    (store_after (create_note env title content category type_tag priority topics) s)
    = Return note.
Proof.
  intros Hfresh. unfold result_of, store_after.
  destruct (validate_tags_spec_cases (tag_schema (data s)) (Some category)
              (Some type_tag) (Some priority) topics) as [Hok|[m Hbad]].
  - rewrite (create_note_valid _ _ _ _ _ _ _ _ Hok). cbv zeta.
    destruct (disk_ok env); simpl; [|done]. intros [= <-].
    rewrite read_note_run. simpl. rewrite find_by_id_app.
    + simpl. by rewrite String.eqb_refl.
    + intros n Hn Hid. apply Hfresh. unfold note_ids. rewrite <- Hid.
      apply list_elem_of_In, in_map, list_elem_of_In, Hn.
  - by rewrite (create_note_invalid _ _ _ _ _ _ _ _ _ Hbad).
Qed.

(** An instance on the seed store, which has no note at all. *)
Lemma read_after_create_witness :
  result_of (read_note "note-1")
    (store_after (create_note (mkEnv (mkDatetime 2024 5 17 9 30 0 0) "note-1" true)
                    "Title" "Body" "work" "todo" "active" (Some ["mcp"])) initial_store) =
  Return {| n_id := "note-1"; n_title := "Title"; n_content := "Body";
            n_tags := {| t_category := "work"; t_type := "todo";
                         t_priority := "active"; t_topics := ["mcp"] |};
            n_created := "2024-05-17T09:30:00Z"; n_updated := "2024-05-17T09:30:00Z" |}.
Proof.
  apply (read_after_create (mkEnv (mkDatetime 2024 5 17 9 30 0 0) "note-1" true)
           "Title" "Body" "work" "todo" "active" (Some ["mcp"]) initial_store).
  - intros H. simpl in H. by apply elem_of_nil in H.
  - reflexivity.
Defined.

(** X4 (delete_note on success).  For an id carried by a stored note and a
    write that goes through, [delete_note] returns [True] and removes the
    first note with that id, at position [i]; the other notes keep their
    order, the schema is untouched and the file then holds the new
    document. *)
Theorem delete_note_success (env : Env) (note_id : string) (s : Store)
    (i : nat) (n : Note) :
  disk_ok env = true →
  first_with_id note_id (notes (data s)) i n →
  result_of (delete_note env note_id) s = Return true ∧
  data (store_after (delete_note env note_id) s)
    = {| tag_schema := tag_schema (data s); notes := delete i (notes (data s)) |} ∧
  file (store_after (delete_note env note_id) s)
    = Some {| tag_schema := tag_schema (data s); notes := delete i (notes (data s)) |} ∧
  notes (data (store_after (delete_note env note_id) s)) `sublist_of` notes (data s) ∧
  S (length (notes (data (store_after (delete_note env note_id) s))))
    = length (notes (data s)).
Proof.
  intros Hdisk Hfirst. pose proof Hfirst as (Hi & _).
  apply find_by_id_first in Hfirst.
  unfold result_of, store_after. rewrite (delete_note_found _ _ _ _ _ Hfirst).
  cbv zeta. rewrite Hdisk. simpl.
  split; [done|]. split; [done|]. split; [done|]. split; [apply sublist_delete|].
  apply lookup_lt_Some in Hi. rewrite length_delete by eauto using lookup_lt_is_Some_2.
  lia.
Qed.

(** An instance: the only note of a store is deleted. *)
Lemma delete_note_success_witness :
  result_of (delete_note (mkEnv (mkDatetime 2024 5 17 9 31 0 0) "unused" true) "note-1")
    (store_after (create_note (mkEnv (mkDatetime 2024 5 17 9 30 0 0) "note-1" true)
                    "Title" "Body" "work" "todo" "active" (Some ["mcp"])) initial_store) =
  Return true.
Proof.
  apply (delete_note_success (mkEnv (mkDatetime 2024 5 17 9 31 0 0) "unused" true) "note-1"
           (store_after (create_note (mkEnv (mkDatetime 2024 5 17 9 30 0 0) "note-1" true)
                           "Title" "Body" "work" "todo" "active" (Some ["mcp"]))
              initial_store)
           0
           {| n_id := "note-1"; n_title := "Title"; n_content := "Body";
              n_tags := {| t_category := "work"; t_type := "todo";
                           t_priority := "active"; t_topics := ["mcp"] |};
              n_created := "2024-05-17T09:30:00Z"; n_updated := "2024-05-17T09:30:00Z" |}).
  - reflexivity.
  - split; [reflexivity|]. split; [reflexivity|]. intros j m Hj. lia.
Defined.

Lemma NoDup_delete_not_elem (l : list string) (i : nat) (x : string) :
  NoDup l → l !! i = Some x → x ∉ delete i l.
Proof.
  intros Hnd Hi. rewrite delete_take_drop.
  rewrite <- (take_drop_middle l i x Hi) in Hnd.
  apply NoDup_app in Hnd as (_ & Hdisj & Hnd).
  apply NoDup_cons in Hnd as [Hx _].
  intros [Hin|Hin]%elem_of_app; [|done].
  apply (Hdisj x Hin). left.
Qed.

(** X5 (delete, then read).  When the ids of the stored notes are pairwise
    distinct, a note that [delete_note] has deleted can no longer be read:
    [read_note] with its id raises the not-found error. *)
Theorem read_after_delete (env : Env) (note_id : string) (s : Store) :
  NoDup (note_ids (data s)) →
  result_of (delete_note env note_id) s = Return true →
  result_of (read_note note_id) (store_after (delete_note env note_id) s)
    = Raise (ValueError (not_found_message note_id)).
Proof.
  intros Hnd. unfold result_of, store_after.
  destruct (find_by_id note_id (notes (data s)) 0) as [[i note]|] eqn:Hfind.
  - rewrite (delete_note_found _ _ _ _ _ Hfind). cbv zeta.
    destruct (disk_ok env); simpl; [|done]. intros _.
    rewrite read_note_run. simpl.
    apply find_by_id_first in Hfind as (Hi & Hid & _).
    assert (Hnone : find_by_id note_id (delete i (notes (data s))) 0 = None).
    { apply find_by_id_none. intros n Hn Hn'.
      apply (NoDup_delete_not_elem (note_ids (data s)) i note_id Hnd).
      - unfold note_ids. change (map n_id (notes (data s))) with (n_id <$> notes (data s)).
        by rewrite list_lookup_fmap, Hi, <- Hid.
      - unfold note_ids. change (map n_id (notes (data s))) with (n_id <$> notes (data s)).
        rewrite <- list_fmap_delete, <- Hn'. by apply list_elem_of_fmap_2. }
    by rewrite Hnone.
  - by rewrite (delete_note_missing _ _ _ Hfind).
Qed.

(** An instance: create a note, delete it, try to read it. *)
Lemma read_after_delete_witness :
  result_of (read_note "note-1")
    (store_after (delete_note (mkEnv (mkDatetime 2024 5 17 9 31 0 0) "unused" true) "note-1")
       (store_after (create_note (mkEnv (mkDatetime 2024 5 17 9 30 0 0) "note-1" true)
                       "Title" "Body" "work" "todo" "active" (Some ["mcp"]))
          initial_store)) =
  Raise (ValueError "Note with ID 'note-1' not found").
Proof.
  apply (read_after_delete (mkEnv (mkDatetime 2024 5 17 9 31 0 0) "unused" true) "note-1"
           (store_after (create_note (mkEnv (mkDatetime 2024 5 17 9 30 0 0) "note-1" true)
                           "Title" "Body" "work" "todo" "active" (Some ["mcp"]))
              initial_store)).
  - apply NoDup_singleton.
  - reflexivity.
Defined.

(** Without distinct ids the guarantee is lost: of two notes with the same
    id, [delete_note] removes the first and the second is then read. *)
Example read_after_delete_duplicate_id :
  result_of (read_note "same")
    (store_after (delete_note (mkEnv (mkDatetime 2024 5 17 9 32 0 0) "unused" true) "same")
       (store_after (create_note (mkEnv (mkDatetime 2024 5 17 9 31 0 0) "same" true)
                       "Second" "Body" "work" "idea" "soon" None)
          (store_after (create_note (mkEnv (mkDatetime 2024 5 17 9 30 0 0) "same" true)
                          "First" "Body" "work" "todo" "active" None)
             initial_store))) =
  Return {| n_id := "same"; n_title := "Second"; n_content := "Body";
            n_tags := {| t_category := "work"; t_type := "idea";
                         t_priority := "soon"; t_topics := [] |};
            n_created := "2024-05-17T09:31:00Z"; n_updated := "2024-05-17T09:31:00Z" |}.
Proof. reflexivity. Qed.

Lemma updated_note_id (now : string) (old : Note)
    (title content category type_tag priority : option string)
    (topics : option (list string)) :
  n_id (updated_note now old title content category type_tag priority topics) = n_id old.
Proof. done. Qed.

Lemma update_note_ids (env : Env) (note_id : string)
    (title content category type_tag priority : option string)
    (topics : option (list string)) (s : Store) :
  note_ids (data (store_after
                    (update_note env note_id title content category type_tag priority topics)
                    s)) = note_ids (data s).
Proof.
  unfold store_after.
  destruct (find_by_id note_id (notes (data s)) 0) as [[i note]|] eqn:Hfind.
  - destruct (validate_tags_spec_cases (tag_schema (data s)) category type_tag
                priority topics) as [Hok|[m Hbad]].
    + rewrite (update_note_valid _ _ _ _ _ _ _ _ _ _ _ Hfind Hok). cbv zeta.
      apply find_by_id_first in Hfind as (Hi & _).
      assert (Hids : map n_id (<[i := updated_note (timestamp env) note title content
                                        category type_tag priority topics]>
                                 (notes (data s))) = map n_id (notes (data s))).
      { change (n_id <$> <[i := updated_note (timestamp env) note title content
                                 category type_tag priority topics]> (notes (data s))
                = n_id <$> notes (data s)).
        rewrite list_fmap_insert, updated_note_id. apply list_insert_id.
        by rewrite list_lookup_fmap, Hi. }
      by destruct (disk_ok env).
    + by rewrite (update_note_invalid _ _ _ _ _ _ _ _ _ _ _ _ Hfind Hbad).
  - by rewrite (update_note_missing _ _ _ _ _ _ _ _ _ Hfind).
Qed.

(** X6 (ids stay distinct).  [update_note] never changes the ids of the
    stored notes nor their order.  If the ids are pairwise distinct, they
    still are after any call of [update_note], [delete_note] or
    [add_tags_to_schema], and after a [create_note] whose generated id is
    carried by no stored note. *)
Theorem distinct_ids_preserved (c : Call) (s : Store) :
  (∀ env note_id title content category type_tag priority topics,
     c = UpdateNote env note_id title content category type_tag priority topics →
     note_ids (data (run c s)) = note_ids (data s)) ∧
  (NoDup (note_ids (data s)) → call_id_fresh c s → NoDup (note_ids (data (run c s)))).
Proof.
  split.
  - intros env note_id title content category type_tag priority topics ->. simpl.
    apply update_note_ids.
  - intros Hnd Hfresh. destruct c as [env title content category type_tag priority topics
      | env note_id title content category type_tag priority topics
      | env note_id | env dimension tags]; simpl in *.
    + unfold store_after.
      destruct (validate_tags_spec_cases (tag_schema (data s)) (Some category)
                  (Some type_tag) (Some priority) topics) as [Hok|[m Hbad]].
      * rewrite (create_note_valid _ _ _ _ _ _ _ _ Hok). cbv zeta.
        assert (Hnew : ∀ note, n_id note = uuid4 env →
                  NoDup (map n_id (notes (data s) ++ [note]))).
        { intros note Hid. rewrite map_app. simpl. rewrite Hid.
          apply NoDup_app. split; [done|]. split; [|apply NoDup_singleton].
          intros x Hx Hx'. apply list_elem_of_singleton in Hx'. by subst. }
        destruct (disk_ok env); simpl; by apply Hnew.
      * by rewrite (create_note_invalid _ _ _ _ _ _ _ _ _ Hbad).
    + by rewrite update_note_ids.
    + unfold store_after.
      destruct (find_by_id note_id (notes (data s)) 0) as [[i note]|] eqn:Hfind.
      * rewrite (delete_note_found _ _ _ _ _ Hfind). cbv zeta.
        assert (Hdel : NoDup (map n_id (delete i (notes (data s))))).
        { change (NoDup (n_id <$> delete i (notes (data s)))).
          rewrite list_fmap_delete. eapply sublist_NoDup; [done | apply sublist_delete]. }
        by destruct (disk_ok env).
      * by rewrite (delete_note_missing _ _ _ Hfind).
    + unfold store_after.
      destruct (schema_get (tag_schema (data s)) dimension) as [l|] eqn:Hget.
      * rewrite (add_tags_valid_dimension _ _ _ _ _ Hget). cbv zeta.
        by destruct (disk_ok env).
      * rewrite add_tags_invalid_dimension; [done|].
        destruct (mem dimension valid_dimensions) eqn:E; [|done].
        apply (schema_get_valid (tag_schema (data s))) in E as [l' Hl']. congruence.
Qed.

(** An instance: a second note with a new id. *)
Lemma distinct_ids_preserved_witness :
  NoDup (note_ids (data
    (run (CreateNote (mkEnv (mkDatetime 2024 5 17 9 31 0 0) "note-2" true)
            "Second" "Body" "work" "idea" "soon" None)
       (run (CreateNote (mkEnv (mkDatetime 2024 5 17 9 30 0 0) "note-1" true)
               "First" "Body" "work" "todo" "active" None)
          initial_store)))).
Proof.
  apply distinct_ids_preserved.
  - apply NoDup_singleton.
  - simpl. intros H. apply list_elem_of_singleton in H. discriminate.
Defined.

(* ===================================================================== *)
(** * Persistence *)
(* ===================================================================== *)

(** Every call of a mutating method ends in one of two ways: it raises a
    [ValueError] before touching anything; or it brings the in-memory
    document to some [d], the same whatever the fate of the write, enters
    [_save] once, and returns with [d] in the file or raises [OSError] with
    the file as it was. *)
Lemma run_cases (c : Call) (s : Store) :
  (∀ ok, run (call_with_disk ok c) s = s ∧
         ∃ msg, call_result (call_with_disk ok c) s = Raise (ValueError msg)) ∨
  (∃ d, ∀ ok,
     run (call_with_disk ok c) s =
       {| data := d; file := if ok then Some d else file s;
          save_calls := S (save_calls s) |} ∧
     call_result (call_with_disk ok c) s = if ok then Return tt else Raise OSError).
Proof.
  destruct c as [env title content category type_tag priority topics
    | env note_id title content category type_tag priority topics
    | env note_id | env dimension tags]; simpl; unfold result_of, store_after.
  - destruct (validate_tags_spec_cases (tag_schema (data s)) (Some category)
                (Some type_tag) (Some priority) topics) as [Hok|[m Hbad]].
    + right. eexists. intros ok.
      rewrite (create_note_valid _ _ _ _ _ _ _ _ Hok). cbv zeta.
      by destruct ok.
    + left. intros ok. rewrite (create_note_invalid _ _ _ _ _ _ _ _ _ Hbad). eauto.
  - destruct (find_by_id note_id (notes (data s)) 0) as [[i note]|] eqn:Hfind.
    + destruct (validate_tags_spec_cases (tag_schema (data s)) category type_tag
                  priority topics) as [Hok|[m Hbad]].
      * right. eexists. intros ok.
        rewrite (update_note_valid _ _ _ _ _ _ _ _ _ _ _ Hfind Hok). cbv zeta.
        by destruct ok.
      * left. intros ok.
        rewrite (update_note_invalid _ _ _ _ _ _ _ _ _ _ _ _ Hfind Hbad). eauto.
    + left. intros ok. rewrite (update_note_missing _ _ _ _ _ _ _ _ _ Hfind). eauto.
  - destruct (find_by_id note_id (notes (data s)) 0) as [[i note]|] eqn:Hfind.
    + right. eexists. intros ok. rewrite (delete_note_found _ _ _ _ _ Hfind). cbv zeta.
      by destruct ok.
    + left. intros ok. rewrite (delete_note_missing _ _ _ Hfind). eauto.
  - destruct (schema_get (tag_schema (data s)) dimension) as [l|] eqn:Hget.
    + right. eexists. intros ok. rewrite (add_tags_valid_dimension _ _ _ _ _ Hget).
      cbv zeta. by destruct ok.
    + left. intros ok. rewrite add_tags_invalid_dimension; [eauto|].
      destruct (mem dimension valid_dimensions) eqn:E; [|done].
      apply (schema_get_valid (tag_schema (data s))) in E as [l' Hl']. congruence.
Qed.

Lemma call_with_disk_same (c : Call) : call_with_disk (disk_ok (call_env c)) c = c.
Proof. by destruct c as [[]|[]|[]|[]]. Qed.

(** X7 (a call that returns has persisted).  When a call of [create_note],
    [update_note], [delete_note] or [add_tags_to_schema] returns, the backing
    file holds exactly the in-memory document, [_save] was entered once, and
    a store started afresh on that file loads the same document. *)
Theorem returned_call_is_persisted (c : Call) (s : Store) :
  call_result c s = Return tt →
  file (run c s) = Some (data (run c s)) ∧
  save_calls (run c s) = S (save_calls s) ∧
  data (restart (run c s)) = data (run c s).
Proof.
  intros Hres. destruct (run_cases c s) as [Hraise|[d Hd]].
  - destruct (Hraise (disk_ok (call_env c))) as [_ [msg Hmsg]].
    rewrite call_with_disk_same in Hmsg. congruence.
  - destruct (Hd (disk_ok (call_env c))) as [Hrun Hcall].
    rewrite call_with_disk_same in Hrun, Hcall. rewrite Hrun. rewrite Hcall in Hres.
    destruct (disk_ok (call_env c)); [done | discriminate].
Qed.

(** An instance: the first note created on the seed store. *)
Lemma returned_call_is_persisted_witness :
  data (restart (run (CreateNote (mkEnv (mkDatetime 2024 5 17 9 30 0 0) "note-1" true)
                        "Title" "Body" "work" "todo" "active" (Some ["mcp"]))
                   initial_store)) =
  data (run (CreateNote (mkEnv (mkDatetime 2024 5 17 9 30 0 0) "note-1" true)
               "Title" "Body" "work" "todo" "active" (Some ["mcp"]))
          initial_store).
Proof.
  apply (returned_call_is_persisted
           (CreateNote (mkEnv (mkDatetime 2024 5 17 9 30 0 0) "note-1" true)
              "Title" "Body" "work" "todo" "active" (Some ["mcp"]))
           initial_store).
  reflexivity.
Defined.

(** X8 (a failed write is not rolled back).  When a call raises [OSError],
    the write was the one that failed; the file keeps its previous content,
    but the in-memory document has been changed all the same: it is the
    document the call would have left, and persisted, had the write gone
    through.  Memory and file then differ whenever the call changes the
    document. *)
Theorem failed_write_keeps_mutation (c : Call) (s : Store) :
  call_result c s = Raise OSError →
  disk_ok (call_env c) = false ∧
  file (run c s) = file s ∧
  save_calls (run c s) = S (save_calls s) ∧
  data (run c s) = data (run (call_with_disk true c) s) ∧
  call_result (call_with_disk true c) s = Return tt.
Proof.
  intros Hres. destruct (run_cases c s) as [Hraise|[d Hd]].
  - destruct (Hraise (disk_ok (call_env c))) as [_ [msg Hmsg]].
    rewrite call_with_disk_same in Hmsg. congruence.
  - destruct (Hd (disk_ok (call_env c))) as [Hrun Hcall], (Hd true) as [Hrun' Hcall'].
    rewrite call_with_disk_same in Hrun, Hcall. rewrite Hrun, Hrun', Hcall'.
    rewrite Hcall in Hres. by destruct (disk_ok (call_env c)).
Qed.

(** An instance: a note is created while the disk refuses the write; the
    note is in memory and the file still does not exist. *)
Lemma failed_write_keeps_mutation_witness :
  file (run (CreateNote (mkEnv (mkDatetime 2024 5 17 9 30 0 0) "note-1" false)
               "Title" "Body" "work" "todo" "active" None) initial_store) = None ∧
  length (notes (data (run (CreateNote (mkEnv (mkDatetime 2024 5 17 9 30 0 0) "note-1" false)
                              "Title" "Body" "work" "todo" "active" None)
                         initial_store))) = 1.
Proof.
  split; [|reflexivity].
  apply (failed_write_keeps_mutation
           (CreateNote (mkEnv (mkDatetime 2024 5 17 9 30 0 0) "note-1" false)
              "Title" "Body" "work" "todo" "active" None) initial_store).
  reflexivity.
Defined.

Lemma run_file (c : Call) (s : Store) :
  file (run c s) = file s ∨ file (run c s) = Some (data (run c s)).
Proof.
  rewrite <- (call_with_disk_same c).
  destruct (run_cases c s) as [Hraise|[d Hd]].
  - destruct (Hraise (disk_ok (call_env c))) as [-> _]. by left.
  - destruct (Hd (disk_ok (call_env c))) as [-> _].
    destruct (disk_ok (call_env c)); [by right | by left].
Qed.

Lemma reachable_valid (s : Store) :
  reachable s → schema_membership (data s) ∧ schema_membership (data (restart s)).
Proof.
  induction 1 as [|c s Hreach [IHdata IHfile]]; [split; constructor|].
  split; [by apply run_preserves|].
  unfold restart in *. simpl in *.
  destruct (run_file c s) as [->| ->]; [done|]. simpl.
  by apply run_preserves.
Qed.

(** X9 (what a restart loads).  In every store reachable from the seed
    document, the document that a fresh [NotesStorage] would load from the
    backing file (the seed if there is no file yet) satisfies the
    schema-membership invariant, even when failed writes have left the file
    behind the in-memory document. *)
Theorem reloaded_document_valid (s : Store) :
  reachable s → schema_membership (data (restart s)).
Proof. intros H. by apply reachable_valid. Qed.

(** An instance: a first create is persisted, a second one fails to write;
    a restart then loads the document with the first note only. *)
Lemma reloaded_document_valid_witness :
  schema_membership
    (data (restart
       (run (CreateNote (mkEnv (mkDatetime 2024 5 17 9 31 0 0) "note-2" false)
               "Second" "Body" "work" "idea" "soon" None)
          (run (CreateNote (mkEnv (mkDatetime 2024 5 17 9 30 0 0) "note-1" true)
                  "First" "Body" "work" "todo" "active" None)
             initial_store)))) ∧
  length (notes (data (restart
       (run (CreateNote (mkEnv (mkDatetime 2024 5 17 9 31 0 0) "note-2" false)
               "Second" "Body" "work" "idea" "soon" None)
          (run (CreateNote (mkEnv (mkDatetime 2024 5 17 9 30 0 0) "note-1" true)
                  "First" "Body" "work" "todo" "active" None)
             initial_store))))) = 1.
Proof.
  split; [|reflexivity].
  apply reloaded_document_valid.
  apply reachable_call, reachable_call, reachable_initial.
Defined.

(* ===================================================================== *)
(** * The schema over time *)
(* ===================================================================== *)

(** X10 (add_tags_to_schema on an unknown dimension).  A dimension name
    other than the four fixed ones, compared exactly, makes
    [add_tags_to_schema] raise a [ValueError] whose message quotes the name
    and lists the four dimensions; nothing is changed and nothing is
    written.  And whatever the arguments, the lookup of the dimension in the
    schema never fails with a [KeyError]. *)
Theorem add_tags_unknown_dimension (env : Env) (dimension : string) (tags : list string)
    (s : Store) :
  (dimension ∉ valid_dimensions →
   add_tags_to_schema env dimension tags s =
   (Raise (ValueError ("Invalid dimension '" ++ dimension ++
                       "'. Must be one of: category, type, priority, topics")), s)) ∧
  (∀ key, result_of (add_tags_to_schema env dimension tags) s ≠ Raise (KeyError key)).
Proof.
  split.
  - intros H. apply add_tags_invalid_dimension. by apply mem_false.
  - intros key. unfold result_of.
    destruct (schema_get (tag_schema (data s)) dimension) as [l|] eqn:Hget.
    + rewrite (add_tags_valid_dimension _ _ _ _ _ Hget). cbv zeta.
      by destruct (disk_ok env).
    + rewrite add_tags_invalid_dimension; [done|].
      destruct (mem dimension valid_dimensions) eqn:E; [|done].
      apply (schema_get_valid (tag_schema (data s))) in E as [l' Hl']. congruence.
Qed.

(** An instance: the name is compared with its case. *)
Lemma add_tags_unknown_dimension_witness :
  add_tags_to_schema (mkEnv (mkDatetime 2024 5 17 9 30 0 0) "unused" true)
    "Topics" ["rust"] initial_store =
  (Raise (ValueError
            "Invalid dimension 'Topics'. Must be one of: category, type, priority, topics"),
   initial_store).
Proof.
  apply (proj1 (add_tags_unknown_dimension
                  (mkEnv (mkDatetime 2024 5 17 9 30 0 0) "unused" true)
                  "Topics" ["rust"] initial_store)).
  apply mem_false. reflexivity.
Defined.

(** The schema after a call: unchanged, or one dimension grown by
    [add_tags_to_schema]. *)
Lemma run_schema (c : Call) (s : Store) :
  tag_schema (data (run c s)) = tag_schema (data s) ∨
  ∃ dimension l tags,
    schema_get (tag_schema (data s)) dimension = Some l ∧
    tag_schema (data (run c s)) =
      schema_set (tag_schema (data s)) dimension (append_new l tags).
Proof.
  destruct c as [env title content category type_tag priority topics
    | env note_id title content category type_tag priority topics
    | env note_id | env dimension tags]; simpl; unfold store_after.
  - left.
    destruct (validate_tags_spec_cases (tag_schema (data s)) (Some category)
                (Some type_tag) (Some priority) topics) as [Hok|[m Hbad]].
    + rewrite (create_note_valid _ _ _ _ _ _ _ _ Hok). cbv zeta. by destruct (disk_ok env).
    + by rewrite (create_note_invalid _ _ _ _ _ _ _ _ _ Hbad).
  - left. destruct (find_by_id note_id (notes (data s)) 0) as [[i note]|] eqn:Hfind.
    + destruct (validate_tags_spec_cases (tag_schema (data s)) category type_tag
                  priority topics) as [Hok|[m Hbad]].
      * rewrite (update_note_valid _ _ _ _ _ _ _ _ _ _ _ Hfind Hok). cbv zeta.
        by destruct (disk_ok env).
      * by rewrite (update_note_invalid _ _ _ _ _ _ _ _ _ _ _ _ Hfind Hbad).
    + by rewrite (update_note_missing _ _ _ _ _ _ _ _ _ Hfind).
  - left. destruct (find_by_id note_id (notes (data s)) 0) as [[i note]|] eqn:Hfind.
    + rewrite (delete_note_found _ _ _ _ _ Hfind). cbv zeta. by destruct (disk_ok env).
    + by rewrite (delete_note_missing _ _ _ Hfind).
  - destruct (schema_get (tag_schema (data s)) dimension) as [l|] eqn:Hget.
    + right. exists dimension, l, tags. split; [done|].
      rewrite (add_tags_valid_dimension _ _ _ _ _ Hget). cbv zeta.
      by destruct (disk_ok env).
    + left. rewrite add_tags_invalid_dimension; [done|].
      destruct (mem dimension valid_dimensions) eqn:E; [|done].
      apply (schema_get_valid (tag_schema (data s))) in E as [l' Hl']. congruence.
Qed.

Lemma schema_set_no_duplicates (schema : TagSchema) (dimension : string)
    (l l' : list string) :
  schema_get schema dimension = Some l → schema_no_duplicates schema → NoDup l' →
  schema_no_duplicates (schema_set schema dimension l').
Proof.
  unfold schema_get, schema_set, schema_no_duplicates.
  intros Hget (Hc & Ht & Hp & Hts) Hl'.
  destruct (dimension =? "category"); [done|].
  destruct (dimension =? "type"); [done|].
  destruct (dimension =? "priority"); [done|].
  by destruct (dimension =? "topics").
Qed.

Lemma schema_get_no_duplicates (schema : TagSchema) (dimension : string) (l : list string) :
  schema_get schema dimension = Some l → schema_no_duplicates schema → NoDup l.
Proof.
  unfold schema_get, schema_no_duplicates. intros Hget (Hc & Ht & Hp & Hts).
  destruct (dimension =? "category"); [by injection Hget as <-|].
  destruct (dimension =? "type"); [by injection Hget as <-|].
  destruct (dimension =? "priority"); [by injection Hget as <-|].
  destruct (dimension =? "topics"); [by injection Hget as <-|].
  done.
Qed.

Lemma seed_schema_no_duplicates : schema_no_duplicates seed_schema.
Proof.
  assert (Hdec : ∀ l : list string, bool_decide (NoDup l) = true → NoDup l)
    by (intros l; apply bool_decide_eq_true_1).
  repeat split; by apply Hdec.
Qed.

(** X11 (no tag is listed twice).  In every store reachable from the seed
    document no dimension of the schema lists a tag twice, whatever lists of
    tags, with or without repetitions, were handed to
    [add_tags_to_schema]. *)
Theorem schema_never_duplicates (s : Store) :
  reachable s → schema_no_duplicates (tag_schema (data s)).
Proof.
  induction 1 as [|c s _ IH]; [apply seed_schema_no_duplicates|].
  destruct (run_schema c s) as [->|(dimension & l & tags & Hget & ->)]; [done|].
  apply (schema_set_no_duplicates _ _ l); [done | done |].
  apply append_new_NoDup.
  by apply (schema_get_no_duplicates (tag_schema (data s)) dimension).
Qed.

(** An instance: a tag given twice in one call, and once more in a second
    call, is listed once. *)
Lemma schema_never_duplicates_witness :
  schema_no_duplicates
    (tag_schema (data
       (run (AddTagsToSchema (mkEnv (mkDatetime 2024 5 17 9 31 0 0) "unused" true)
               "topics" ["rust"; "mcp"])
          (run (AddTagsToSchema (mkEnv (mkDatetime 2024 5 17 9 30 0 0) "unused" true)
                  "topics" ["rust"; "rust"])
             initial_store)))) ∧
  s_topics (tag_schema (data
       (run (AddTagsToSchema (mkEnv (mkDatetime 2024 5 17 9 31 0 0) "unused" true)
               "topics" ["rust"; "mcp"])
          (run (AddTagsToSchema (mkEnv (mkDatetime 2024 5 17 9 30 0 0) "unused" true)
                  "topics" ["rust"; "rust"])
             initial_store)))) = ["mcp"; "ai"; "coding"; "design"; "rust"].
Proof.
  split; [|reflexivity].
  apply schema_never_duplicates.
  apply reachable_call, reachable_call, reachable_initial.
Defined.

Lemma schema_set_extends (schema : TagSchema) (dimension : string) (l l' : list string) :
  schema_get schema dimension = Some l → l `prefix_of` l' →
  schema_extends schema (schema_set schema dimension l').
Proof.
  unfold schema_get, schema_set, schema_extends. intros Hget Hpre.
  destruct (dimension =? "category"); [by injection Hget as <-|].
  destruct (dimension =? "type"); [by injection Hget as <-|].
  destruct (dimension =? "priority"); [by injection Hget as <-|].
  destruct (dimension =? "topics"); [by injection Hget as <-|].
  done.
Qed.

Lemma provided_valid_extends (a b : TagSchema)
    (category type_tag priority : option string) (topics : option (list string)) :
  schema_extends a b →
  provided_valid a category type_tag priority topics →
  provided_valid b category type_tag priority topics.
Proof.
  intros (Hc & Ht & Hp & Hts) (Hvc & Hvt & Hvp & Hvts).
  assert (Hsub : ∀ (l l' : list string) x, l `prefix_of` l' → x ∈ l → x ∈ l').
  { intros l l' x [k ->] Hx. apply elem_of_app. by left. }
  split; [eauto|]. split; [eauto|]. split; [eauto|].
  intros ts Hsome. eapply Forall_impl; [by apply Hvts|]. intros x. by apply Hsub.
Qed.

(** X12 (the schema only grows).  Whatever the call, each dimension of the
    schema before it is an initial segment of the dimension after it: no
    tag is removed, renamed or moved.  Hence tags that [validate_tags]
    accepts before a call are still accepted after it. *)
Theorem schema_only_grows (c : Call) (s : Store) :
  schema_extends (tag_schema (data s)) (tag_schema (data (run c s))) ∧
  (∀ category type_tag priority topics,
     result_of (validate_tags category type_tag priority topics) s = Return (true, "") →
     result_of (validate_tags category type_tag priority topics) (run c s)
       = Return (true, "")).
Proof.
  assert (Hext : schema_extends (tag_schema (data s)) (tag_schema (data (run c s)))).
  { destruct (run_schema c s) as [->|(dimension & l & tags & Hget & ->)].
    - by repeat split.
    - apply (schema_set_extends _ _ l); [done | apply append_new_prefix]. }
  split; [done|].
  intros category type_tag priority topics. unfold result_of.
  rewrite !validate_tags_run. simpl. intros [= Hok]. f_equal.
  apply validate_tags_spec_true, (provided_valid_extends _ _ _ _ _ _ Hext).
  apply validate_tags_spec_valid. by rewrite Hok.
Qed.

(** An instance: ["mcp"] is a valid topic before and after a topic is
    added. *)
Lemma schema_only_grows_witness :
  result_of (validate_tags None None None (Some ["mcp"]))
    (run (AddTagsToSchema (mkEnv (mkDatetime 2024 5 17 9 30 0 0) "unused" true)
            "topics" ["rust"]) initial_store) = Return (true, "").
Proof.
  apply (proj2 (schema_only_grows
                  (AddTagsToSchema (mkEnv (mkDatetime 2024 5 17 9 30 0 0) "unused" true)
                     "topics" ["rust"]) initial_store)).
  reflexivity.
Defined.

(** X13 (tags added are then valid).  When [add_tags_to_schema] returns, the
    schema it returns is the stored one, and its dimension holds exactly the
    tags it held before and the tags of the call; in particular each of
    these tags now passes the membership test of [validate_tags]. *)
Theorem added_tags_are_members (env : Env) (dimension : string) (tags : list string)
    (s : Store) (schema' : TagSchema) :
  result_of (add_tags_to_schema env dimension tags) s = Return schema' →
  tag_schema (data (store_after (add_tags_to_schema env dimension tags) s)) = schema' ∧
  ∃ l l',
    schema_get (tag_schema (data s)) dimension = Some l ∧
    schema_get schema' dimension = Some l' ∧
    (∀ x, x ∈ l' ↔ x ∈ l ∨ x ∈ tags) ∧
    (∀ x, x ∈ tags → mem x l' = true).
Proof.
  unfold result_of, store_after.
  destruct (schema_get (tag_schema (data s)) dimension) as [l|] eqn:Hget.
  - rewrite (add_tags_valid_dimension _ _ _ _ _ Hget). cbv zeta.
    destruct (disk_ok env); simpl; [|done]. intros [= <-]. split; [done|].
    exists l, (append_new l tags). split; [done|].
    split; [by apply (schema_get_set _ _ l)|].
    split; [intros x; apply append_new_elem|].
    intros x Hx. apply mem_true, append_new_elem. by right.
  - rewrite add_tags_invalid_dimension; [done|].
    destruct (mem dimension valid_dimensions) eqn:E; [|done].
    apply (schema_get_valid (tag_schema (data s))) in E as [l' Hl']. congruence.
Qed.

(** An instance: a new priority. *)
Lemma added_tags_are_members_witness :
  tag_schema (data (store_after
    (add_tags_to_schema (mkEnv (mkDatetime 2024 5 17 9 30 0 0) "unused" true)
       "priority" ["urgent"]) initial_store)) =
  {| s_category := ["work"; "personal"; "learning"];
     s_type := ["project"; "idea"; "reference"; "todo"; "note"];
     s_priority := ["active"; "soon"; "someday"; "eventually"; "maybe"; "not-actionable";
                    "urgent"];
     s_topics := ["mcp"; "ai"; "coding"; "design"] |}.
Proof.
  apply (added_tags_are_members (mkEnv (mkDatetime 2024 5 17 9 30 0 0) "unused" true)
           "priority" ["urgent"] initial_store).
  reflexivity.
Defined.

(* ===================================================================== *)
(** * Edge cases of find_notes and totals of list_tags *)
(* ===================================================================== *)

(** X14 (an empty list of requested topics).  A topics filter that is
    provided but empty matches no note, whatever the other filters and the
    notes are: [find_notes] returns the empty list.  This differs from
    leaving the filter out. *)
Theorem find_notes_empty_topics (lower : string → string) (q : Query) (s : Store) :
  q_topics q = Some [] →
  result_of (find_notes lower q) s = Return [].
Proof.
  intros Hq. unfold result_of. rewrite find_notes_run. simpl. f_equal.
  apply filter_none. intros n _. apply not_true_iff_false. intros Hm.
  apply matches_and in Hm as (_ & _ & _ & Htopics & _).
  destruct (Htopics [] Hq) as (topic & Hin & _). by apply elem_of_nil in Hin.
Qed.

(** An instance: the note of the store has topic ["mcp"], the request names
    no topic. *)
Lemma find_notes_empty_topics_witness :
  result_of (find_notes (λ t, t) (mkQuery None None None (Some []) None None None None None))
    (store_after (create_note (mkEnv (mkDatetime 2024 5 17 9 30 0 0) "note-1" true)
                    "Title" "Body" "work" "todo" "active" (Some ["mcp"])) initial_store) =
  Return [].
Proof.
  apply (find_notes_empty_topics (λ t, t)
           (mkQuery None None None (Some []) None None None None None)).
  reflexivity.
Defined.

Lemma leb_refl (a : string) : (a <=? a) = true.
Proof. by destruct (String.leb_total a a). Qed.

Lemma leb_both_eqb (a b : string) : (b <=? a) && (a <=? b) = (a =? b).
Proof.
  destruct (String.eqb_spec a b) as [->|Hne].
  - by rewrite leb_refl.
  - apply andb_false_iff.
    destruct (b <=? a) eqn:E1; [|by left]. destruct (a <=? b) eqn:E2; [|by right].
    exfalso. apply Hne. by apply String.leb_antisym.
Qed.

(** X15 (both date bounds equal).  Because both bounds are inclusive, giving
    the same string as lower and as upper bound selects exactly the notes
    whose timestamp is that string, for [created] and for [updated]. *)
Theorem find_notes_equal_bounds (lower : string → string) (bound : string) (s : Store) :
  result_of (find_notes lower
               (mkQuery None None None None None (Some bound) (Some bound) None None)) s =
    Return (List.filter (λ n, n_created n =? bound) (notes (data s))) ∧
  result_of (find_notes lower
               (mkQuery None None None None None None None (Some bound) (Some bound))) s =
    Return (List.filter (λ n, n_updated n =? bound) (notes (data s))).
Proof.
  unfold result_of. rewrite !find_notes_run. simpl.
  split; f_equal; apply filter_ext_bool; intros n;
    unfold matches, date_bounds_hold; simpl; rewrite ?andb_true_r; apply leb_both_eqb.
Qed.

Lemma total_bump (k : string) (m : gmap string nat) : total (bump k m) = S (total m).
Proof.
  unfold total, bump.
  assert (Hcomm : ∀ z1 z2 y : nat, z1 + (z2 + y) = z2 + (z1 + y)) by (intros; lia).
  destruct (m !! k) as [v|] eqn:E; simpl.
  - rewrite <- insert_delete_eq.
    rewrite map_fold_insert_L; [|by intros; apply Hcomm | apply lookup_delete_eq].
    rewrite (map_fold_delete_L _ _ k v m); [lia | by intros; apply Hcomm | done].
  - rewrite map_fold_insert_L; [lia | by intros; apply Hcomm | done].
Qed.

Lemma total_bump_all (topics : list string) (m : gmap string nat) :
  total (bump_all topics m) = length topics + total m.
Proof.
  revert m. induction topics as [|topic rest IH]; intros m; simpl; [done|].
  rewrite IH, total_bump. lia.
Qed.

Lemma total_count_notes (l : list Note) (counts : Counts) :
  total (c_category (fold_left count_note l counts)) = length l + total (c_category counts) ∧
  total (c_type (fold_left count_note l counts)) = length l + total (c_type counts) ∧
  total (c_priority (fold_left count_note l counts)) = length l + total (c_priority counts) ∧
  total (c_topics (fold_left count_note l counts)) =
    length (concat (map (λ n, t_topics (n_tags n)) l)) + total (c_topics counts).
Proof.
  revert counts. induction l as [|n l IH]; intros counts; simpl; [done|].
  destruct (IH (count_note counts n)) as (Hc & Ht & Hp & Hts).
  rewrite Hc, Ht, Hp, Hts. simpl. rewrite !total_bump, total_bump_all, length_app.
  repeat split; lia.
Qed.

(** X16 (the counts add up).  In the result of [list_tags] the counters of
    the category dimension sum to the number of notes, and so do those of
    the type and of the priority dimension: every note is counted once in
    each.  The counters of the topics dimension sum to the total length of
    the topic sequences of the notes. *)
Theorem list_tags_totals (s : Store) :
  ∃ counts,
    result_of list_tags s = Return counts ∧
    total (c_category counts) = length (notes (data s)) ∧
    total (c_type counts) = length (notes (data s)) ∧
    total (c_priority counts) = length (notes (data s)) ∧
    total (c_topics counts) =
      length (concat (map (λ n, t_topics (n_tags n)) (notes (data s)))).
Proof.
  exists (fold_left count_note (notes (data s)) empty_counts). split; [done|].
  destruct (total_count_notes (notes (data s)) empty_counts) as (Hc & Ht & Hp & Hts).
  rewrite Hc, Ht, Hp, Hts. simpl. unfold total. rewrite map_fold_empty. lia.
Qed.

(* ===================================================================== *)
(** * Creating a note, then deleting or searching *)
(* ===================================================================== *)

Lemma delete_last {A} (l : list A) (x : A) : delete (length l) (l ++ [x]) = l.
Proof. induction l as [|a l IH]; simpl; [done|]. by f_equal. Qed.

(** X17 (create, then delete).  When the generated id is carried by no
    stored note, deleting that id right after a successful [create_note]
    returns [True] and brings the in-memory document back to what it was
    before the note was created. *)
Theorem delete_after_create (env env' : Env)
    (title content category type_tag priority : string)
    (topics : option (list string)) (s : Store) (note : Note) :
  uuid4 env ∉ note_ids (data s) →
  disk_ok env' = true →
  result_of (create_note env title content category type_tag priority topics) s
    = Return note →
  result_of (delete_note env' (uuid4 env))
    (store_after (create_note env title content category type_tag priority topics) s)
    = Return true ∧
  data (store_after (delete_note env' (uuid4 env))
          (store_after (create_note env title content category type_tag priority topics) s))
    = data s.
Proof.
  intros Hfresh Hdisk. unfold result_of, store_after.
  destruct (validate_tags_spec_cases (tag_schema (data s)) (Some category)
              (Some type_tag) (Some priority) topics) as [Hok|[m Hbad]].
  - rewrite (create_note_valid _ _ _ _ _ _ _ _ Hok). cbv zeta.
    destruct (disk_ok env); simpl; [|done]. intros [= <-].
    erewrite delete_note_found.
    + cbv zeta. rewrite Hdisk. simpl. split; [done|].
      rewrite delete_last. by destruct (data s).
    + simpl. rewrite find_by_id_app.
      * simpl. by rewrite String.eqb_refl.
      * intros n Hn Hid. apply Hfresh. unfold note_ids. rewrite <- Hid.
        apply list_elem_of_In, in_map, list_elem_of_In, Hn.
  - by rewrite (create_note_invalid _ _ _ _ _ _ _ _ _ Hbad).
Qed.

(** An instance on the seed store. *)
Lemma delete_after_create_witness :
  data (store_after (delete_note (mkEnv (mkDatetime 2024 5 17 9 31 0 0) "unused" true) "note-1")
          (store_after (create_note (mkEnv (mkDatetime 2024 5 17 9 30 0 0) "note-1" true)
                          "Title" "Body" "work" "todo" "active" (Some ["mcp"]))
             initial_store)) = seed_document.
Proof.
  apply (delete_after_create (mkEnv (mkDatetime 2024 5 17 9 30 0 0) "note-1" true)
           (mkEnv (mkDatetime 2024 5 17 9 31 0 0) "unused" true)
           "Title" "Body" "work" "todo" "active" (Some ["mcp"]) initial_store
           {| n_id := "note-1"; n_title := "Title"; n_content := "Body";
              n_tags := {| t_category := "work"; t_type := "todo";
                           t_priority := "active"; t_topics := ["mcp"] |};
              n_created := "2024-05-17T09:30:00Z"; n_updated := "2024-05-17T09:30:00Z" |}).
  - intros H. simpl in H. by apply elem_of_nil in H.
  - reflexivity.
  - reflexivity.
Defined.

(** X18 (create, then search).  After a successful [create_note] a search
    returns what it returned before, followed by the new note when, and only
    when, the new note matches the query: a new note never changes which
    earlier notes are found, nor their order. *)
Theorem find_after_create (lower : string → string) (q : Query) (env : Env)
    (title content category type_tag priority : string)
    (topics : option (list string)) (s : Store) (note : Note) :
  result_of (create_note env title content category type_tag priority topics) s
    = Return note →
  ∃ found,
    result_of (find_notes lower q) s = Return found ∧
    result_of (find_notes lower q)
      (store_after (create_note env title content category type_tag priority topics) s)
      = Return (found ++ if matches lower q note then [note] else []).
Proof.
  unfold result_of, store_after.
  destruct (validate_tags_spec_cases (tag_schema (data s)) (Some category)
              (Some type_tag) (Some priority) topics) as [Hok|[m Hbad]].
  - rewrite (create_note_valid _ _ _ _ _ _ _ _ Hok). cbv zeta.
    destruct (disk_ok env); cbn [fst snd]; [|done]. intros [= <-].
    eexists. rewrite !find_notes_run. cbn [fst snd data notes]. split; [done|].
    by rewrite List.filter_app.
  - by rewrite (create_note_invalid _ _ _ _ _ _ _ _ _ Hbad).
Qed.

(** An instance: the new note is in category ["work"], the search asks for
    ["personal"]. *)
Lemma find_after_create_witness :
  ∃ found,
    result_of (find_notes (λ t, t)
                 (mkQuery (Some "personal") None None None None None None None None))
      initial_store = Return found ∧
    result_of (find_notes (λ t, t)
                 (mkQuery (Some "personal") None None None None None None None None))
      (store_after (create_note (mkEnv (mkDatetime 2024 5 17 9 30 0 0) "note-1" true)
                      "Title" "Body" "work" "todo" "active" (Some ["mcp"])) initial_store)
      = Return (found ++ []).
Proof.
  apply (find_after_create (λ t, t)
           (mkQuery (Some "personal") None None None None None None None None)
           (mkEnv (mkDatetime 2024 5 17 9 30 0 0) "note-1" true)
           "Title" "Body" "work" "todo" "active" (Some ["mcp"]) initial_store
           {| n_id := "note-1"; n_title := "Title"; n_content := "Body";
              n_tags := {| t_category := "work"; t_type := "todo";
                           t_priority := "active"; t_topics := ["mcp"] |};
              n_created := "2024-05-17T09:30:00Z"; n_updated := "2024-05-17T09:30:00Z" |}).
  reflexivity.
Defined.
